(** * A model of the Next.js / BullMQ job-queue prototype

    The publisher ([POST] and [GET] of [nextjs-app/app/api/jobs/route.ts]),
    the queue helpers of [shared/lib/queue.ts] and the worker's
    [processEmailJob] are embedded as functions over an explicit state:
    the [jobs] table of PostgreSQL, the queues held by Redis, and the
    module-level variables of the running process.  What the calls to
    PostgreSQL and Redis may do besides succeeding (a connection error, a
    violated constraint) is supplied per call by an environment record. *)

From Stdlib Require Import Ascii String ZArith Lia.
From Stdlib Require QArith_base.
From stdpp Require Import gmap strings list sorting.

Set Warnings "-register-all".

Local Open Scope Z_scope.
Local Open Scope string_scope.

(** ** Shared types ([shared/src/types/index.ts]) *)

Inductive JobStatus := pending | processing | completed | failed.

Global Instance JobStatus_eq_dec : EqDecision JobStatus.
Proof. solve_decision. Defined.

Definition status_name (s : JobStatus) : string :=
  match s with
  | pending => "pending"
  | processing => "processing"
  | completed => "completed"
  | failed => "failed"
  end.

(** JSON values, as [request.json()] produces them and as the [JSONB]
    columns hold them.  A number is a fraction, which every finite double
    is; the handlers only test numbers for truthiness. *)
Inductive json :=
  | JNull
  | JBool (b : bool)
  | JNum (n : QArith_base.Q)
  | JStr (s : string)
  | JArr (items : list json)
  | JObj (fields : list (string * json)).

(** A JavaScript value read from a parsed body: [None] is [undefined]. *)
Definition jsval := option json.

(** ToBoolean. *)
Definition truthy (v : jsval) : bool :=
  match v with
  | None => false
  | Some JNull => false
  | Some (JBool b) => b
  | Some (JNum n) => negb (Z.eqb (QArith_base.Qnum n) 0)
  | Some (JStr s) => negb (String.eqb s EmptyString)
  | Some (JArr _) => true
  | Some (JObj _) => true
  end.

(** [v || {}] *)
Definition or_empty_object (v : jsval) : json :=
  match v with
  | Some j => if truthy v then j else JObj []
  | None => JObj []
  end.

(** Property lookup in an association list (the first binding wins). *)
Fixpoint assoc {A} (k : string) (l : list (string * A)) : option A :=
  match l with
  | [] => None
  | (k', v) :: l' => if String.eqb k k' then Some v else assoc k l'
  end.

(** [body.name] for a parsed body.  Reading a property of [null] throws;
    values that are not objects have none of the properties read here. *)
Definition get_prop (name : string) (body : json) : option jsval :=
  match body with
  | JNull => None
  | JObj fields => Some (assoc name fields)
  | _ => Some None
  end.

Record JobData := {
  jobId : string;
  jobType : string;
  jd_status : JobStatus;
  jobData : option json;
  jd_result : option json;
  errorMessage : option string;
  createdAt : Z;
  updatedAt : Z;
  completedAt : option Z
}.

Record CreateJobInput := {
  in_jobId : string;
  in_jobType : string;
  in_jobData : option json
}.

(** ** The [jobs] table (migration [001_create_jobs_table])

    A row without its primary key; the table maps the [id] to the row, so
    the [PRIMARY KEY] constraint is the map's own. *)
Record Row := {
  job_type : string;
  status : JobStatus;
  job_data : json;
  result : option json;
  error_message : option string;
  created_at : Z;
  updated_at : Z;
  completed_at : option Z
}.

(** ** BullMQ queues *)

Inductive BackoffType := fixed | exponential.

Record Backoff := { bo_type : BackoffType; bo_delay : Z }.

Record JobsOptions := {
  delay : option Z;
  attempts : Z;
  backoff : Backoff
}.

(** A job as [queue.add] stores it.  BullMQ numbers the jobs of a queue
    from 1; [job.id] is that number in decimal. *)
Record BullJob := {
  bj_id : nat;
  bj_name : string;
  bj_data : JobData;
  bj_opts : JobsOptions
}.

(** Options of [publishJob]; every field may be left out. *)
Record PublishOptions := {
  po_delay : option Z;
  po_attempts : option Z;
  po_backoff : option Backoff
}.

(** ** State and effects *)

Inductive Event :=
  | EvInsert (id : string) (ok : bool)
  | EvUpdate (id : string) (st : JobStatus) (ok : bool)
  | EvSelect (ok : bool)
  | EvAdd (queue : string) (id : string) (ok : bool)
  | EvSend (id : string) (data : json).

(** The database, Redis, and the module-level variables of the process
    ([pool] of [db/client.ts], [queues] of [lib/queue.ts]).  The web and
    the worker service are started with one environment file, so one
    [DATABASE_URL] serves both. *)
Record World := {
  db : gmap string Row;
  redis : gmap string (list BullJob);
  DATABASE_URL : option string;
  pool : bool;
  queues : gset string;
  trace : list Event
}.

Definition set_db (f : gmap string Row -> gmap string Row) (w : World) : World :=
  {| db := f (db w); redis := redis w; DATABASE_URL := DATABASE_URL w;
     pool := pool w; queues := queues w; trace := trace w |}.

Definition set_redis (r : gmap string (list BullJob)) (w : World) : World :=
  {| db := db w; redis := r; DATABASE_URL := DATABASE_URL w;
     pool := pool w; queues := queues w; trace := trace w |}.

Definition set_pool (b : bool) (w : World) : World :=
  {| db := db w; redis := redis w; DATABASE_URL := DATABASE_URL w;
     pool := b; queues := queues w; trace := trace w |}.

Definition set_queues (q : gset string) (w : World) : World :=
  {| db := db w; redis := redis w; DATABASE_URL := DATABASE_URL w;
     pool := pool w; queues := q; trace := trace w |}.

Definition emit (e : Event) (w : World) : World :=
  {| db := db w; redis := redis w; DATABASE_URL := DATABASE_URL w;
     pool := pool w; queues := queues w; trace := trace w ++ [e] |}.

(** A computation either returns or throws an [Error] with a message. *)
Inductive Res (A : Type) :=
  | Ok (a : A)
  | Throw (msg : string).
Arguments Ok {A} a.
Arguments Throw {A} msg.

Definition M (A : Type) : Type := World -> Res A * World.

Definition ret {A} (a : A) : M A := fun w => (Ok a, w).

Definition bind {A B} (m : M A) (k : A -> M B) : M B :=
  fun w =>
    match m w with
    | (Ok a, w') => k a w'
    | (Throw e, w') => (Throw e, w')
    end.

Definition throw {A} (msg : string) : M A := fun w => (Throw msg, w).

(** [try { m } catch (error) { h error }] *)
Definition try_catch {A} (m : M A) (h : string -> M A) : M A :=
  fun w =>
    match m w with
    | (Ok a, w') => (Ok a, w')
    | (Throw e, w') => h e w'
    end.

Definition update (f : World -> World) : M unit := fun w => (Ok tt, f w).

Definition gets {A} (f : World -> A) : M A := fun w => (Ok (f w), w).

Notation "x <- m ;; k" := (bind m (fun x => k))
  (at level 100, m at next level, right associativity).
Notation "m ;;; k" := (bind m (fun _ => k))
  (at level 100, right associativity).

(** ** The database client ([shared/src/db/client.ts]) *)

Definition is_set (v : option string) : bool :=
  match v with
  | Some s => negb (String.eqb s EmptyString)
  | None => false
  end.

Definition getDbClient : M unit :=
  p <- gets pool ;;
  if negb p then
    connectionString <- gets DATABASE_URL ;;
    if negb (is_set connectionString) then
      throw "DATABASE_URL environment variable is not set"
    else update (set_pool true)
  else ret tt.

(** ** Statements sent through [db.query]

    Every call carries what the server makes of it: the value of [NOW()]
    and, when the call is to fail for a reason of the connection or the
    server, the message of the error.  An [id] that the server cannot read
    as a [UUID] is such a reason; the identifiers of [randomUUID()] are
    all well formed.  For a listing it also carries [q_rank], the place
    the server gives a row among the rows of equal [created_at], an order
    that [ORDER BY created_at] leaves open and that may differ from one
    query to the next. *)
Record QueryEnv := {
  q_now : Z;
  q_fault : option string;
  q_rank : string -> Z
}.

Definition job_types : list string := ["email"; "notification"; "report"].

(** [INSERT INTO jobs (id, job_type, status, job_data, created_at, updated_at)
     VALUES ($1, $2, $3, $4, NOW(), NOW())]: the columns left out take
    their defaults; the [CHECK] on [job_type] and the primary key may
    refuse the row. *)
Definition insert_job (q : QueryEnv) (id jt : string) (st : JobStatus)
    (data : json) : M unit :=
  fun w =>
    match q_fault q with
    | Some msg => (Throw msg, emit (EvInsert id false) w)
    | None =>
      if negb (bool_decide (jt ∈ job_types)) then
        (Throw "violates check constraint jobs_job_type_check",
         emit (EvInsert id false) w)
      else
        match db w !! id with
        | Some _ =>
          (Throw "duplicate key value violates unique constraint jobs_pkey",
           emit (EvInsert id false) w)
        | None =>
          let row := {| job_type := jt; status := st; job_data := data;
                        result := None; error_message := None;
                        created_at := q_now q; updated_at := q_now q;
                        completed_at := None |} in
          (Ok tt, emit (EvInsert id true) (set_db (insert id row) w))
        end
    end.

(** The trigger [update_jobs_updated_at], run before every update of a row. *)
Definition update_updated_at_column (now : Z) (r : Row) : Row :=
  {| job_type := job_type r; status := status r; job_data := job_data r;
     result := result r; error_message := error_message r;
     created_at := created_at r; updated_at := now;
     completed_at := completed_at r |}.

(** [SET status = $1, updated_at = NOW()] *)
Definition set_status (st : JobStatus) (now : Z) (r : Row) : Row :=
  {| job_type := job_type r; status := st; job_data := job_data r;
     result := result r; error_message := error_message r;
     created_at := created_at r; updated_at := now;
     completed_at := completed_at r |}.

(** [SET status = $1, completed_at = NOW(), updated_at = NOW()] *)
Definition set_status_completed_at (st : JobStatus) (now : Z) (r : Row) : Row :=
  {| job_type := job_type r; status := st; job_data := job_data r;
     result := result r; error_message := error_message r;
     created_at := created_at r; updated_at := now;
     completed_at := Some now |}.

(** [SET status = $1, error_message = $2, updated_at = NOW()] *)
Definition set_status_error_message (st : JobStatus) (msg : string) (now : Z)
    (r : Row) : Row :=
  {| job_type := job_type r; status := st; job_data := job_data r;
     result := result r; error_message := Some msg;
     created_at := created_at r; updated_at := now;
     completed_at := completed_at r |}.

(** [UPDATE jobs SET ... WHERE id = $n]: the row with that [id], if there
    is one, is rewritten by the [SET] clause and then by the trigger; no
    row matching is no error. *)
Definition update_job (q : QueryEnv) (id : string) (st : JobStatus)
    (set : Z -> Row -> Row) : M unit :=
  fun w =>
    match q_fault q with
    | Some msg => (Throw msg, emit (EvUpdate id st false) w)
    | None =>
      (Ok tt,
       emit (EvUpdate id st true)
         (set_db (alter (fun r => update_updated_at_column (q_now q)
                                    (set (q_now q) r)) id) w))
    end.

(** The text of a [UUID] as the server reads it: an opening brace or none,
    sixteen bytes of two hexadecimal digits each, in either case, a hyphen
    or none after every second byte but the last, the closing brace if one
    was opened, and nothing more.  The result is the canonical text: lower
    case, hyphens after the bytes 4, 6, 8 and 10, which is also the text of
    [randomUUID()]. *)
Definition is_hex (c : ascii) : bool :=
  let n := nat_of_ascii c in
  ((48 <=? n)%nat && (n <=? 57)%nat) ||
  ((97 <=? n)%nat && (n <=? 102)%nat) ||
  ((65 <=? n)%nat && (n <=? 70)%nat).

Definition lower_hex (c : ascii) : ascii :=
  let n := nat_of_ascii c in
  if (65 <=? n)%nat && (n <=? 70)%nat then ascii_of_nat (n + 32) else c.

(** The bytes [i], [i+1], ... of the text, [n] of them; the digits read,
    in lower case, and the text left. *)
Fixpoint uuid_bytes (n i : nat) (s : string) : option (list ascii * string) :=
  match n with
  | O => Some ([], s)
  | S n' =>
    match s with
    | String a (String b s') =>
      if is_hex a && is_hex b then
        let s'' :=
          match s' with
          | String "-"%char t =>
            if Nat.odd i && (i <? 15)%nat then t else s'
          | _ => s'
          end in
        match uuid_bytes n' (S i) s'' with
        | Some (ds, rest) => Some (lower_hex a :: lower_hex b :: ds, rest)
        | None => None
        end
      else None
    | _ => None
    end
  end.

(** The digits with the hyphens of the canonical text. *)
Fixpoint uuid_text (k : nat) (ds : list ascii) : string :=
  match ds with
  | [] => EmptyString
  | d :: ds' =>
    if bool_decide (k ∈ [8; 12; 16; 20]%nat)
    then String "-"%char (String d (uuid_text (S k) ds'))
    else String d (uuid_text (S k) ds')
  end.

Definition uuid_in (s : string) : option string :=
  let braces := match s with String "{"%char _ => true | _ => false end in
  let src := match s with String "{"%char t => t | _ => s end in
  match uuid_bytes 16 0 src with
  | Some (ds, rest) =>
    if String.eqb rest (if braces then "}" else EmptyString)
    then Some (uuid_text 0 ds) else None
  | None => None
  end.

(** [SELECT * FROM jobs WHERE id = $1].  The table holds each row under
    the text it was inserted with, which for the rows of [POST] is the
    canonical text of a [UUID]; the server compares as [UUID]s, so an [id]
    in another spelling finds the row of its canonical text, and a text
    that is no [UUID] is refused. *)
Definition select_job (q : QueryEnv) (id : string) : M (list (string * Row)) :=
  fun w =>
    match q_fault q with
    | Some msg => (Throw msg, emit (EvSelect false) w)
    | None =>
      match db w !! id with
      | Some r => (Ok [(id, r)], emit (EvSelect true) w)
      | None =>
        match uuid_in id with
        | Some u =>
          (Ok match db w !! u with Some r => [(u, r)] | None => [] end,
           emit (EvSelect true) w)
        | None =>
          (Throw "invalid input syntax for type uuid",
           emit (EvSelect false) w)
        end
      end
    end.

(** [ORDER BY created_at DESC] *)
Definition newest_first (a b : string * Row) : Prop :=
  (created_at (snd b) <= created_at (snd a))%Z.

Global Instance newest_first_dec a b : Decision (newest_first a b).
Proof. unfold newest_first. apply _. Defined.

(** [AND status = $1], when the clause is there. *)
Definition status_is (s : option string) (jr : string * Row) : Prop :=
  match s with
  | Some name => status_name (status (snd jr)) = name
  | None => True
  end.

Global Instance status_is_dec s jr : Decision (status_is s jr).
Proof. unfold status_is. destruct s; apply _. Defined.

(** The order of the rows of one answer: newest [created_at] first, and
    among rows of equal [created_at] the one the server ranks lower. *)
Definition server_order (rank : string -> Z) (a b : string * Row) : Prop :=
  (created_at (snd b) < created_at (snd a))%Z \/
  (created_at (snd b) = created_at (snd a) /\ rank (fst a) <= rank (fst b))%Z.

Global Instance server_order_dec rank a b : Decision (server_order rank a b).
Proof. unfold server_order. apply _. Defined.

(** A JavaScript number whose value is an integer, as [parseInt] returns
    them. *)
Inductive number :=
  | NaN
  | Infinity (negative : bool)
  | Int (n : Z).

(** A text with the character U+0000, which the server takes in no
    parameter. *)
Fixpoint has_nul (s : string) : bool :=
  match s with
  | String c s' => (nat_of_ascii c =? 0)%nat || has_nul s'
  | EmptyString => false
  end.

Definition bigint_max : Z := 9223372036854775807.

(** [SELECT * FROM jobs WHERE 1=1 [AND status = $1]
     ORDER BY created_at DESC LIMIT $n OFFSET $m].  The numbers are sent as
    their text: [NaN], an infinity and a number beyond the range of
    [bigint] are no [bigint] for the server, and it refuses a negative
    [LIMIT] or [OFFSET].  Rows with equal [created_at] come in the order
    the server chooses, [q_rank]. *)
Definition select_jobs (q : QueryEnv) (st : option string)
    (limit offset : number) : M (list (string * Row)) :=
  fun w =>
    match q_fault q with
    | Some msg => (Throw msg, emit (EvSelect false) w)
    | None =>
      if match st with Some s => has_nul s | None => false end then
        (Throw "invalid byte sequence for encoding UTF8: 0x00",
         emit (EvSelect false) w)
      else
        match limit, offset with
        | Int l, Int o =>
          if (l <? 0)%Z then
            (Throw "LIMIT must not be negative", emit (EvSelect false) w)
          else if (o <? 0)%Z then
            (Throw "OFFSET must not be negative", emit (EvSelect false) w)
          else if (bigint_max <? l)%Z || (bigint_max <? o)%Z then
            (Throw "value out of range for type bigint",
             emit (EvSelect false) w)
          else
            (Ok (take (Z.to_nat l)
                   (drop (Z.to_nat o)
                      (merge_sort (server_order (q_rank q))
                         (filter (status_is st) (map_to_list (db w)))))),
             emit (EvSelect true) w)
        | _, _ =>
          (Throw "invalid input syntax for type bigint",
           emit (EvSelect false) w)
        end
    end.

(** ** The queues ([shared/lib/queue.ts]) *)

Definition getQueue (queueName : string) : M string :=
  qs <- gets queues ;;
  (if negb (bool_decide (queueName ∈ qs)) then
     update (set_queues ({[queueName]} ∪ qs))
   else ret tt) ;;;
  ret queueName.

(** [queue.add(name, data, opts)]: the job is appended to the queue in
    Redis and numbered; [fault] is the error of a lost connection. *)
Definition queue_add (fault : option string) (queue name : string)
    (data : JobData) (opts : JobsOptions) : M nat :=
  fun w =>
    match fault with
    | Some msg => (Throw msg, emit (EvAdd queue (jobId data) false) w)
    | None =>
      let jobs := default [] (redis w !! queue) in
      let job := {| bj_id := S (length jobs); bj_name := name;
                    bj_data := data; bj_opts := opts |} in
      (Ok (bj_id job),
       emit (EvAdd queue (jobId data) true)
         (set_redis (<[queue := (jobs ++ [job])%list]> (redis w)) w))
    end.

(** [options?.attempts || 3] *)
Definition attempts_or_3 (options : option PublishOptions) : Z :=
  match options with
  | Some o =>
    match po_attempts o with
    | Some n => if Z.eqb n 0 then 3 else n
    | None => 3
    end
  | None => 3
  end.

(** [options?.backoff || { type: 'exponential', delay: 2000 }] *)
Definition backoff_or_default (options : option PublishOptions) : Backoff :=
  match options with
  | Some o =>
    match po_backoff o with
    | Some b => b
    | None => {| bo_type := exponential; bo_delay := 2000 |}
    end
  | None => {| bo_type := exponential; bo_delay := 2000 |}
  end.

Definition publishJob (fault : option string) (queueName : string)
    (jobData : JobData) (options : option PublishOptions) : M nat :=
  queue <- getQueue queueName ;;
  queue_add fault queue queueName jobData
    {| delay := match options with Some o => po_delay o | None => None end;
       attempts := attempts_or_3 options;
       backoff := backoff_or_default options |}.

(** [publishEmailJob]; [date1] and [date2] are its two [new Date()]. *)
Definition publishEmailJob (fault : option string) (date1 date2 : Z)
    (input : CreateJobInput) (options : option PublishOptions) : M nat :=
  let jobData := {| jobId := in_jobId input;
                    jobType := in_jobType input;
                    jd_status := pending;
                    jobData := in_jobData input;
                    jd_result := None;
                    errorMessage := None;
                    createdAt := date1;
                    updatedAt := date2;
                    completedAt := None |} in
  publishJob fault "email" jobData options.

(** ** The route [/api/jobs] ([nextjs-app/app/api/jobs/route.ts]) *)

Inductive Body :=
  | ErrorBody (error : string)
  | FailureBody (error message : string)
  | CreatedBody (success : bool) (jobId : string) (message : string)
  | JobBody (job : string * Row)
  | JobsBody (jobs : list (string * Row)) (count : nat)
      (limit offset : option Z).

Record Response := { code : Z; body : Body }.

Definition validJobTypes : list string := ["email"; "notification"; "report"].

(** [validJobTypes.includes(v)]: only a string can be one of them. *)
Definition includes (l : list string) (v : jsval) : bool :=
  match v with
  | Some (JStr s) => bool_decide (s ∈ l)
  | _ => false
  end.

(** [l.join(sep)] *)
Fixpoint join (sep : string) (l : list string) : string :=
  match l with
  | [] => EmptyString
  | [s] => s
  | s :: l' => s ++ sep ++ join sep l'
  end.

(** The text of a value passed as a statement parameter or kept in a typed
    field; of the values reaching these places only strings occur. *)
Definition text_of (v : jsval) : string :=
  match v with
  | Some (JStr s) => s
  | _ => EmptyString
  end.

Definition lift {A} (r : Res A) : M A := fun w => (r, w).

(** [const { jobType, jobData } = body] *)
Definition destructure (body : json) : M (jsval * jsval) :=
  match get_prop "jobType" body, get_prop "jobData" body with
  | Some t, Some d => ret (t, d)
  | _, _ => throw "Cannot destructure property 'jobType' of 'body' as it is null."
  end.

(** What one call of [POST] draws from outside: the identifier of
    [randomUUID()], the outcome of its statement and of [queue.add], and
    the two dates of [publishEmailJob]. *)
Record PostEnv := {
  uuid : string;
  insert_env : QueryEnv;
  add_fault : option string;
  date1 : Z;
  date2 : Z
}.

Definition POST (env : PostEnv) (request_json : Res json) : M Response :=
  try_catch
    (body <- lift request_json ;;
     fields <- destructure body ;;
     let jobType := fst fields in
     let jobData := snd fields in
     if negb (truthy jobType) || negb (includes validJobTypes jobType) then
       ret {| code := 400;
              body := ErrorBody ("Invalid job type. Must be one of: "
                                 ++ join ", " validJobTypes) |}
     else
       let jobId := uuid env in
       getDbClient ;;;
       insert_job (insert_env env) jobId (text_of jobType) pending
         (or_empty_object jobData) ;;;
       let createJobInput :=
         {| in_jobId := jobId; in_jobType := text_of jobType;
            in_jobData := Some (or_empty_object jobData) |} in
       publishEmailJob (add_fault env) (date1 env) (date2 env)
         createJobInput None ;;;
       ret {| code := 201;
              body := CreatedBody true jobId
                        "Job created and published successfully" |})
    (fun error =>
       ret {| code := 500; body := FailureBody "Failed to create job" error |}).

(** [parseInt(s, 10)]: leading white space, a sign, then the longest run
    of decimal digits, whose value is rounded to the nearest double, to the
    even one of two equally near.  A string holds the UTF-8 bytes of its
    text; the white space of JavaScript is U+0009 to U+000D, U+0020,
    U+00A0, U+1680, U+2000 to U+200A, U+2028, U+2029, U+202F, U+205F,
    U+3000 and U+FEFF. *)
Definition is_space (c : ascii) : bool :=
  let n := nat_of_ascii c in
  ((9 <=? n)%nat && (n <=? 13)%nat) || (n =? 32)%nat.

(** U+00A0 *)
Definition is_space2 (c1 c2 : ascii) : bool :=
  (nat_of_ascii c1 =? 194)%nat && (nat_of_ascii c2 =? 160)%nat.

(** The white space of three bytes. *)
Definition is_space3 (c1 c2 c3 : ascii) : bool :=
  let n1 := nat_of_ascii c1 in
  let n2 := nat_of_ascii c2 in
  let n3 := nat_of_ascii c3 in
  ((n1 =? 225) && (n2 =? 154) && (n3 =? 128))%nat ||
  ((n1 =? 226) && (n2 =? 128) &&
   (((128 <=? n3) && (n3 <=? 138)) || (n3 =? 168) || (n3 =? 169) ||
    (n3 =? 175)))%nat ||
  ((n1 =? 226) && (n2 =? 129) && (n3 =? 159))%nat ||
  ((n1 =? 227) && (n2 =? 128) && (n3 =? 128))%nat ||
  ((n1 =? 239) && (n2 =? 187) && (n3 =? 191))%nat.

Fixpoint skip_spaces (s : string) : string :=
  match s with
  | String c1 s1 =>
    if is_space c1 then skip_spaces s1
    else
      match s1 with
      | String c2 s2 =>
        if is_space2 c1 c2 then skip_spaces s2
        else
          match s2 with
          | String c3 s3 =>
            if is_space3 c1 c2 c3 then skip_spaces s3 else s
          | EmptyString => s
          end
      | EmptyString => s
      end
  | EmptyString => EmptyString
  end.

Definition digit_value (c : ascii) : option Z :=
  let n := nat_of_ascii c in
  if (48 <=? n)%nat && (n <=? 57)%nat then Some (Z.of_nat n - 48)%Z else None.

Fixpoint digits (s : string) (acc : option Z) : option Z :=
  match s with
  | String c s' =>
    match digit_value c with
    | Some d => digits s' (Some (10 * default 0%Z acc + d)%Z)
    | None => acc
    end
  | EmptyString => acc
  end.

(** The double nearest to an integer. *)
Definition to_double (n : Z) : number :=
  let a := Z.abs n in
  if (a <? 2 ^ 53)%Z then Int n
  else
    let e := (Z.log2 a - 52)%Z in
    let q := Z.shiftr a e in
    let r := (a - Z.shiftl q e)%Z in
    let half := Z.shiftl 1 (e - 1) in
    let m := if (half <? r)%Z || ((r =? half)%Z && Z.odd q)
             then (q + 1)%Z else q in
    let v := Z.shiftl m e in
    if (2 ^ 1024 <=? v)%Z then Infinity (n <? 0)%Z
    else Int (Z.sgn n * v).

Definition parseInt (s : string) : number :=
  let t := skip_spaces s in
  let negative := match t with String "-"%char _ => true | _ => false end in
  let rest := match t with
              | String "-"%char s' => s'
              | String "+"%char s' => s'
              | _ => t
              end in
  match digits rest None with
  | Some n => to_double (if negative then - n else n)
  | None => NaN
  end.

(** A number in the body of an answer: [JSON.stringify] prints [NaN] and
    the infinities as [null]. *)
Definition json_number (x : number) : option Z :=
  match x with
  | Int n => Some n
  | _ => None
  end.

(** [v || d] for a string or [null]. *)
Definition or_string (v : option string) (d : string) : string :=
  match v with
  | Some s => if String.eqb s EmptyString then d else s
  | None => d
  end.

(** [GET]; [searchParams] are the decoded pairs of the query string, and
    [searchParams.get] returns the first value of a name. *)
Definition GET (q : QueryEnv) (searchParams : list (string * string))
    : M Response :=
  try_catch
    (let jobId := assoc "jobId" searchParams in
     let status := assoc "status" searchParams in
     let limit := parseInt (or_string (assoc "limit" searchParams) "50") in
     let offset := parseInt (or_string (assoc "offset" searchParams) "0") in
     getDbClient ;;;
     if is_set jobId then
       (* [jobId] is a string here *)
       rows <- select_job q (or_string jobId EmptyString) ;;
       match rows with
       | [] => ret {| code := 404; body := ErrorBody "Job not found" |}
       | job :: _ => ret {| code := 200; body := JobBody job |}
       end
     else
       rows <- select_jobs q (if is_set status then status else None)
                 limit offset ;;
       ret {| code := 200;
              body := JobsBody rows (length rows) (json_number limit)
                        (json_number offset) |})
    (fun error =>
       ret {| code := 500; body := FailureBody "Failed to fetch jobs" error |}).

(** ** The worker ([processEmailJob] and the worker's entry point) *)

(** What one run of [processEmailJob] draws from outside: the outcome of
    each of its three statements. *)
Record ProcessEnv := { q1 : QueryEnv; q2 : QueryEnv; q3 : QueryEnv }.

(** The simulated sending of the mail: a line on the console and a second
    of waiting; it is the execution of the job's handler. *)
Definition send_email (jobId : string) (jobData : option json) : M unit :=
  update (emit (EvSend jobId (default JNull jobData))).

Definition processEmailJob (env : ProcessEnv) (job : BullJob) : M unit :=
  let jobId := jobId (bj_data job) in
  let jobData := jobData (bj_data job) in
  getDbClient ;;;
  update_job (q1 env) jobId processing (set_status processing) ;;;
  try_catch
    (send_email jobId jobData ;;;
     update_job (q2 env) jobId completed (set_status_completed_at completed))
    (fun error =>
       update_job (q3 env) jobId failed
         (set_status_error_message failed error) ;;;
       throw error).

(** [new Worker('email', job => processEmailJob(job), { concurrency: 5 })] *)
Record WorkerDef := {
  wk_queue : string;
  wk_processor : ProcessEnv -> BullJob -> M unit;
  wk_concurrency : Z
}.

Definition emailWorker : WorkerDef :=
  {| wk_queue := "email"; wk_processor := processEmailJob;
     wk_concurrency := 5 |}.

(** ** Runs of the system

    The operations that reach the database and Redis: a request to either
    handler of the route, and a delivery of a queued job to the worker's
    processor.  BullMQ delivers at least once, so a job may be delivered
    any number of times. *)
Inductive Op :=
  | OpPost (env : PostEnv) (request_json : Res json)
  | OpGet (q : QueryEnv) (searchParams : list (string * string))
  | OpProcess (env : ProcessEnv) (job : BullJob).

Inductive Outcome :=
  | Replied (r : Res Response)
  | Settled (r : Res unit).

Definition step (op : Op) (w : World) : Outcome * World :=
  match op with
  | OpPost env rj => let '(r, w') := POST env rj w in (Replied r, w')
  | OpGet q ps => let '(r, w') := GET q ps w in (Replied r, w')
  | OpProcess env job =>
    let '(r, w') := processEmailJob env job w in (Settled r, w')
  end.

Fixpoint run (ops : list Op) (w : World) : list Outcome * World :=
  match ops with
  | [] => ([], w)
  | op :: ops' =>
    let '(o, w1) := step op w in
    let '(os, w2) := run ops' w1 in
    (o :: os, w2)
  end.

(** The [jobId] of a reply [201]. *)
Definition created_id (o : Outcome) : option string :=
  match o with
  | Replied (Ok r) =>
    if Z.eqb (code r) 201 then
      match body r with
      | CreatedBody _ id _ => Some id
      | _ => None
      end
    else None
  | _ => None
  end.

(** The process can reach the database: the pool is there already, or the
    connection string to make it is. *)
Definition db_ready (w : World) : bool := pool w || is_set (DATABASE_URL w).

(** The type and the data of a request that passes the validation. *)
Definition submission (request_json : Res json) : option (string * jsval) :=
  match request_json with
  | Ok body =>
    match get_prop "jobType" body, get_prop "jobData" body with
    | Some (Some (JStr jt)), Some d =>
      if bool_decide (jt ∈ validJobTypes) then Some (jt, d) else None
    | _, _ => None
    end
  | Throw _ => None
  end.

(** Executions of the handler (the simulated sending) for a job. *)
Definition is_send (id : string) (e : Event) : bool :=
  match e with
  | EvSend id' _ => String.eqb id' id
  | _ => false
  end.

Definition sends (id : string) (evs : list Event) : nat :=
  List.length (List.filter (is_send id) evs).

(** The messages a queue gained between two states. *)
Definition new_jobs (w w' : World) (q : string) : list BullJob :=
  drop (List.length (default [] (redis w !! q))) (default [] (redis w' !! q)).

(** The transitions the specification allows to a status update. *)
Definition spec_allowed_transition (from to : JobStatus) : bool :=
  match from, to with
  | pending, processing => true
  | processing, completed => true
  | processing, failed => true
  | failed, pending => true
  | _, _ => false
  end.

(** ** Concrete states used as inputs *)

Definition qok (now : Z) : QueryEnv :=
  {| q_now := now; q_fault := None; q_rank := fun _ => 0 |}.

Definition qfail (now : Z) : QueryEnv :=
  {| q_now := now; q_fault := Some "Connection terminated unexpectedly";
     q_rank := fun _ => 0 |}.

Definition world0 : World :=
  {| db := ∅; redis := ∅; DATABASE_URL := Some "postgres://postgres:5432/jobs";
     pool := false; queues := ∅; trace := [] |}.

Definition post_env (id : string) (now : Z) : PostEnv :=
  {| uuid := id; insert_env := qok now; add_fault := None;
     date1 := now; date2 := now |}.

Definition body_of (jt : string) : json :=
  JObj [("jobType", JStr jt); ("jobData", JObj [("to", JStr "a@b.com")])].

Definition id1 : string := "3b241101-e2bb-4255-8caf-4136c566a962".

(** The state after the job [id1] of type [jt] was submitted at time 100. *)
Definition world1 (jt : string) : World :=
  snd (POST (post_env id1 100) (Ok (body_of jt)) world0).

(** The message [POST] queued for [id1]. *)
Definition job1 : BullJob :=
  {| bj_id := 1; bj_name := "email";
     bj_data := {| jobId := id1; jobType := "email"; jd_status := pending;
                   jobData := Some (JObj [("to", JStr "a@b.com")]);
                   jd_result := None; errorMessage := None;
                   createdAt := 100; updatedAt := 100;
                   completedAt := None |};
     bj_opts := {| delay := None; attempts := 3;
                   backoff := {| bo_type := exponential;
                                 bo_delay := 2000 |} |} |}.

(** Runs of the processor: all statements succeed at [t], [t+1], [t+2]; or
    the statement marking the job completed fails. *)
Definition proc_ok (t : Z) : ProcessEnv :=
  {| q1 := qok t; q2 := qok (t + 1); q3 := qok (t + 2) |}.

Definition proc_fail (t : Z) : ProcessEnv :=
  {| q1 := qok t; q2 := qfail (t + 1); q3 := qok (t + 2) |}.

(** ** Definitions used in the statements *)

Definition failure (what msg : string) : Response :=
  {| code := 500; body := FailureBody what msg |}.

Definition created (id : string) : Response :=
  {| code := 201;
     body := CreatedBody true id "Job created and published successfully" |}.

Definition new_row (jt : string) (data : json) (now : Z) : Row :=
  {| job_type := jt; status := pending; job_data := data; result := None;
     error_message := None; created_at := now; updated_at := now;
     completed_at := None |}.

(** The message [publishEmailJob] builds for an input. *)
Definition email_job (n : nat) (d1 d2 : Z) (input : CreateJobInput) : BullJob :=
  {| bj_id := n; bj_name := "email";
     bj_data := {| jobId := in_jobId input; jobType := in_jobType input;
                   jd_status := pending; jobData := in_jobData input;
                   jd_result := None; errorMessage := None;
                   createdAt := d1; updatedAt := d2; completedAt := None |};
     bj_opts := {| delay := None; attempts := 3;
                   backoff := {| bo_type := exponential;
                                 bo_delay := 2000 |} |} |}.

(** The state after the row of an accepted request is written, and after
    its message is queued. *)
Definition inserted (env : PostEnv) (jt : string) (d : jsval) (w : World) : World :=
  emit (EvInsert (uuid env) true)
    (set_db (insert (uuid env)
               (new_row jt (or_empty_object d) (q_now (insert_env env))))
       (set_pool true w)).

Definition post_input (env : PostEnv) (jt : string) (d : jsval) : CreateJobInput :=
  {| in_jobId := uuid env; in_jobType := jt;
     in_jobData := Some (or_empty_object d) |}.

Definition queued (env : PostEnv) (jt : string) (d : jsval) (w : World) : World :=
  let w2 := inserted env jt d w in
  let jobs := default [] (redis w2 !! "email") in
  emit (EvAdd "email" (uuid env) true)
    (set_redis
       (<["email" := (jobs ++ [email_job (S (List.length jobs)) (date1 env)
                                 (date2 env) (post_input env jt d)])%list]>
          (redis w2))
       (set_queues ({["email"]} ∪ queues w2) w2)).

(** The ways a call of [POST] can go. *)
Inductive PostCase (env : PostEnv) (rj : Res json) (w : World)
    : Response -> World -> Prop :=
  | post_refused r :
      code r <> 201 -> PostCase env rj w r w
  | post_not_written e :
      PostCase env rj w (failure "Failed to create job" e)
        (emit (EvInsert (uuid env) false) (set_pool true w))
  | post_not_queued jt d e :
      submission rj = Some (jt, d) -> db w !! uuid env = None ->
      PostCase env rj w (failure "Failed to create job" e)
        (emit (EvAdd "email" (uuid env) false)
           (set_queues ({["email"]} ∪ queues w) (inserted env jt d w)))
  | post_created jt d :
      submission rj = Some (jt, d) -> db w !! uuid env = None ->
      PostCase env rj w (created (uuid env)) (queued env jt d w).

(** A row after a successful [UPDATE]: the [SET] clause, then the trigger. *)
Definition updated (q : QueryEnv) (set : Z -> Row -> Row) (r : Row) : Row :=
  update_updated_at_column (q_now q) (set (q_now q) r).

Definition after_update (q : QueryEnv) (id : string) (st : JobStatus)
    (set : Z -> Row -> Row) (w : World) : World :=
  emit (EvUpdate id st true) (set_db (alter (updated q set) id) w).

(** The state when the handler has run: the row marked [processing], the
    mail sent. *)
Definition handled (env : ProcessEnv) (job : BullJob) (w : World) : World :=
  emit (EvSend (jobId (bj_data job)) (default JNull (jobData (bj_data job))))
    (after_update (q1 env) (jobId (bj_data job)) processing
       (set_status processing) (set_pool true w)).

Definition id2 : string := "0b8f4c1e-58a4-4d0a-9c54-b1f1b4ab6a10".

(** A run in which [id1] was submitted and processed. *)
Definition history1 : list Op :=
  [OpPost (post_env id1 100) (Ok (body_of "email"));
   OpProcess (proc_ok 110) job1].

(** The state after [id1], submitted as an email job, was processed once
    without an error. *)
Definition world_done : World :=
  snd (processEmailJob (proc_ok 110) job1 (world1 "email")).

(** An operation that is a delivery of a message for the job [id]. *)
Definition delivers (id : string) (op : Op) : bool :=
  match op with
  | OpProcess _ job => String.eqb (jobId (bj_data job)) id
  | _ => false
  end.

(** The rows the listing statement selects. *)
Definition listing (q : QueryEnv) (st : option string) (l o : Z) (w : World)
    : list (string * Row) :=
  take (Z.to_nat l)
    (drop (Z.to_nat o)
       (merge_sort (server_order (q_rank q))
          (filter (status_is st) (map_to_list (db w))))).

(** The status a delivery leaves on the row of its job, by the outcome of
    its updates to [completed] and to [failed]. *)
Definition final_status (env : ProcessEnv) : JobStatus :=
  match q_fault (q2 env), q_fault (q3 env) with
  | None, _ => completed
  | Some _, None => failed
  | Some _, Some _ => processing
  end.

(** A status filter the server refuses. *)
Definition refused_status (st : option string) : bool :=
  match st with
  | Some s => has_nul s
  | None => false
  end.

(** A number the server takes as a [LIMIT] or an [OFFSET]. *)
Definition in_range (n : Z) : Prop := (0 <= n <= bigint_max)%Z.

(** Every row of the table is kept under the canonical text of its id. *)
Definition canonical_keys (w : World) : Prop :=
  map_Forall (fun id _ => uuid_in id = Some id) (db w).

(** No two rows of the table have the same [created_at]. *)
Definition distinct_created_at (w : World) : Prop :=
  forall id id' r r',
    db w !! id = Some r -> db w !! id' = Some r' ->
    created_at r = created_at r' -> id = id'.

(** The state after a job of type [report] was submitted as well, at 200. *)
Definition world2 : World :=
  snd (POST (post_env id2 200) (Ok (body_of "report")) (world1 "email")).

(** ** The rest of the database client, of the queues and of the start-up *)

(** [closeDbConnection]; [fault] is the error of [pool.end()], if it fails. *)
Definition closeDbConnection (fault : option string) : M unit :=
  p <- gets pool ;;
  if p then
    match fault with
    | Some msg => throw msg
    | None => update (set_pool false)
    end
  else ret tt.

(** [closeQueues]: every cached queue is closed, then the cache is
    cleared; [fault] is the error of a [queue.close()] that fails, which
    leaves the loop before the cache is cleared. *)
Definition closeQueues (fault : option string) : M unit :=
  qs <- gets queues ;;
  if bool_decide (qs = ∅) then update (set_queues ∅)
  else
    match fault with
    | Some msg => throw msg
    | None => update (set_queues ∅)
    end.

(** [s.includes(sub)] *)
Fixpoint string_includes (sub s : string) : bool :=
  String.prefix sub s ||
  match s with
  | String _ s' => string_includes sub s'
  | EmptyString => false
  end.

(** The [ssl] option given to the pool; [None] is [false]. *)
Record SslOptions := { rejectUnauthorized : bool }.

Record EnvVars := {
  DATABASE_SSL : option string;
  NODE_ENV : option string
}.

(** The choice of [ssl] in the client of the web application. *)
Definition sslConfig (vars : EnvVars) (connectionString : string)
    : option SslOptions :=
  let sslEnabled :=
    bool_decide (DATABASE_SSL vars = Some "true") ||
    bool_decide (DATABASE_SSL vars = Some "1") in
  let isLocalConnection :=
    string_includes "localhost" connectionString ||
    string_includes "127.0.0.1" connectionString ||
    string_includes "postgres:5432" connectionString in
  if sslEnabled then Some {| rejectUnauthorized := false |}
  else if isLocalConnection then None
  else if bool_decide (NODE_ENV vars = Some "production") then
    Some {| rejectUnauthorized := false |}
  else None.

(** The choice of [ssl] in the client of the shared package. *)
Definition sslConfig_shared (vars : EnvVars) : option SslOptions :=
  if bool_decide (NODE_ENV vars = Some "production") then
    Some {| rejectUnauthorized := false |}
  else None.

(** The start of the worker service: the database client is made, and the
    process exits with 1 when that fails; otherwise the worker of the queue
    is set up.  [Some c] is the exit code. *)
Definition worker_start : World -> option Z * World :=
  fun w =>
    match getDbClient w with
    | (Ok _, w') => (None, w')
    | (Throw _, w') => (Some 1, w')
    end.

(** ** The migration runner

    What the runner can see of the database: the table of the applied
    versions, if it exists, and whether the table [jobs] and its trigger
    exist. *)
Record Schema := {
  schema_migrations : option (gset string);
  jobs_table : bool;
  jobs_trigger : bool
}.

Inductive MigrationEvent :=
  | MgNoUrl
  | MgRunning
  | MgCompleted
  | MgAlreadyApplied
  | MgError (msg : string).

(** What one run draws from outside: the connection string, and the error
    of each step that fails: creating the table of versions, reading it,
    reading the file of the migration, running it, recording it, and
    ending the pool. *)
Record MigrationEnv := {
  mg_url : option string;
  mg_create : option string;
  mg_select : option string;
  mg_read : option string;
  mg_migrate : option string;
  mg_record : option string;
  mg_end : option string
}.

Definition version_001 : string := "001_create_jobs_table".

(** The migration [001_create_jobs_table]: the table, the indexes and the
    function are created if missing or replaced; [CREATE TRIGGER] fails
    when the trigger exists, and then nothing of the statement stays. *)
Definition create_jobs_table (fault : option string) (s : Schema)
    : Res unit * Schema :=
  match fault with
  | Some msg => (Throw msg, s)
  | None =>
    if jobs_trigger s then
      (Throw "trigger update_jobs_updated_at for relation jobs already exists",
       s)
    else
      (Ok tt, {| schema_migrations := schema_migrations s;
                 jobs_table := true; jobs_trigger := true |})
  end.

Definition with_versions (vs : gset string) (s : Schema) : Schema :=
  {| schema_migrations := Some vs; jobs_table := jobs_table s;
     jobs_trigger := jobs_trigger s |}.

(** [runMigrations]: the state of the database after it and what it
    printed.  Every error is caught and printed. *)
Definition runMigrations (env : MigrationEnv) (s : Schema)
    : Schema * list MigrationEvent :=
  if negb (is_set (mg_url env)) then (s, [MgNoUrl])
  else
    match mg_create env with
    | Some msg => (s, [MgError msg])
    | None =>
      let versions := default ∅ (schema_migrations s) in
      let s1 := with_versions versions s in
      match mg_select env with
      | Some msg => (s1, [MgError msg])
      | None =>
        if negb (bool_decide (version_001 ∈ versions)) then
          match mg_read env with
          | Some msg => (s1, [MgRunning; MgError msg])
          | None =>
            match create_jobs_table (mg_migrate env) s1 with
            | (Throw msg, s2) => (s2, [MgRunning; MgError msg])
            | (Ok _, s2) =>
              match mg_record env with
              | Some msg => (s2, [MgRunning; MgError msg])
              | None =>
                let s3 := with_versions ({[version_001]} ∪ versions) s2 in
                match mg_end env with
                | Some msg => (s3, [MgRunning; MgCompleted; MgError msg])
                | None => (s3, [MgRunning; MgCompleted])
                end
              end
            end
          end
        else
          match mg_end env with
          | Some msg => (s1, [MgAlreadyApplied; MgError msg])
          | None => (s1, [MgAlreadyApplied])
          end
      end
    end.

(** A run of the migration in which nothing fails. *)
Definition migration_ok : MigrationEnv :=
  {| mg_url := Some "postgres://postgres:5432/jobs"; mg_create := None;
     mg_select := None; mg_read := None; mg_migrate := None;
     mg_record := None; mg_end := None |}.

Definition fresh_schema : Schema :=
  {| schema_migrations := None; jobs_table := false; jobs_trigger := false |}.

(** ** Well-formed rows and states *)

(** What every row written by the handlers satisfies. *)
Definition row_ok (r : Row) : Prop :=
  job_type r ∈ job_types /\
  result r = None /\
  (status r = completed -> is_Some (completed_at r)) /\
  (status r = failed -> is_Some (error_message r)) /\
  (status r = pending ->
     completed_at r = None /\ error_message r = None /\
     updated_at r = created_at r).

(** The message of a queue and the row of its job agree. *)
Definition message_matches (job : BullJob) (r : Row) : Prop :=
  jobType (bj_data job) = job_type r /\
  jobData (bj_data job) = Some (job_data r) /\
  jd_status (bj_data job) = pending.

(** A parameter of the query string as the handler takes it: an empty
    value counts as a missing one. *)
Definition given (v : option string) : option string :=
  if is_set v then v else None.

(** The answer of a listing. *)
Definition page (rows : list (string * Row)) (l o : Z) : Response :=
  {| code := 200;
     body := JobsBody rows (List.length rows) (Some l) (Some o) |}.

(** A query string that asks for a listing: no [jobId], the status filter
    [st], free of U+0000, and the numbers its [limit] and [offset] (or
    their defaults) read as. *)
Definition asks (ps : list (string * string)) (st : option string)
    (l o : Z) : Prop :=
  given (assoc "jobId" ps) = None /\
  given (assoc "status" ps) = st /\
  (forall s, st = Some s -> has_nul s = false) /\
  parseInt (or_string (assoc "limit" ps) "50") = Int l /\
  parseInt (or_string (assoc "offset" ps) "0") = Int o.

(** The job [publishJob] makes of its arguments. *)
Definition published_job (n : nat) (q : string) (data : JobData)
    (options : option PublishOptions) : BullJob :=
  {| bj_id := n; bj_name := q; bj_data := data;
     bj_opts := {| delay := match options with
                            | Some o => po_delay o
                            | None => None
                            end;
                   attempts := attempts_or_3 options;
                   backoff := backoff_or_default options |} |}.

(** Every queued message names a job that has a row, and agrees with it. *)
Definition queues_match (w : World) : Prop :=
  forall q jobs job,
    redis w !! q = Some jobs -> job ∈ jobs ->
    exists r, db w !! jobId (bj_data job) = Some r /\ message_matches job r.

Definition rows_ok (w : World) : Prop :=
  forall id r, db w !! id = Some r -> row_ok r.

(** A change of a row that keeps what is written once, and keeps the row
    well formed. *)
Definition keeps (f : Row -> Row) : Prop :=
  forall r,
    job_type (f r) = job_type r /\ job_data (f r) = job_data r /\
    created_at (f r) = created_at r /\ result (f r) = result r /\
    (row_ok r -> row_ok (f r)).

(** The migration is recorded only when its table and trigger exist. *)
Definition schema_ok (s : Schema) : Prop :=
  (jobs_trigger s = true -> jobs_table s = true) /\
  (version_001 ∈ default ∅ (schema_migrations s) ->
     jobs_table s = true /\ jobs_trigger s = true).

(** The migration [001_create_jobs_table] is recorded as applied. *)
Definition applied (s : Schema) : Prop :=
  version_001 ∈ default ∅ (schema_migrations s).

(** ** Lemmas on the primitives *)

Lemma set_pool_ready w : pool w = true -> set_pool true w = w.
Proof. destruct w; simpl; intros ->; reflexivity. Qed.

Lemma getDbClient_ready w :
  db_ready w = true -> getDbClient w = (Ok tt, set_pool true w).
Proof.
  unfold db_ready, getDbClient, bind, gets, update, ret, throw.
  destruct (pool w) eqn:Hp; simpl.
  - intros _. by rewrite set_pool_ready.
  - intros ->. reflexivity.
Qed.

Lemma getDbClient_not_ready w :
  db_ready w = false ->
  getDbClient w = (Throw "DATABASE_URL environment variable is not set", w).
Proof.
  unfold db_ready, getDbClient, bind, gets, update, ret, throw.
  destruct (pool w); simpl; [done|]. intros ->. reflexivity.
Qed.

Lemma submission_Some rj jt d :
  submission rj = Some (jt, d) ->
  exists body, rj = Ok body /\ get_prop "jobType" body = Some (Some (JStr jt)) /\
    get_prop "jobData" body = Some d /\ jt ∈ validJobTypes.
Proof.
  unfold submission. intros H.
  destruct rj as [body|]; [|done]. exists body.
  destruct (get_prop "jobType" body) as [[[| | |s| |]|]|]; try done.
  destruct (get_prop "jobData" body); [|done].
  case_bool_decide; [|done]. by simplify_eq.
Qed.

Lemma valid_type_passes jt :
  jt ∈ validJobTypes ->
  negb (truthy (Some (JStr jt))) || negb (includes validJobTypes (Some (JStr jt))) = false.
Proof.
  intros H. unfold validJobTypes in H. set_unfold.
  destruct H as [-> | [-> | [-> | []]]]; reflexivity.
Qed.

Lemma POST_accepted env rj w jt d :
  submission rj = Some (jt, d) ->
  POST env rj w =
    match getDbClient w with
    | (Throw e, w1) => (Ok (failure "Failed to create job" e), w1)
    | (Ok _, w1) =>
      match insert_job (insert_env env) (uuid env) jt pending
              (or_empty_object d) w1 with
      | (Throw e, w2) => (Ok (failure "Failed to create job" e), w2)
      | (Ok _, w2) =>
        match publishEmailJob (add_fault env) (date1 env) (date2 env)
                {| in_jobId := uuid env; in_jobType := jt;
                   in_jobData := Some (or_empty_object d) |} None w2 with
        | (Throw e, w3) => (Ok (failure "Failed to create job" e), w3)
        | (Ok _, w3) => (Ok (created (uuid env)), w3)
        end
      end
    end.
Proof.
  intros (body & -> & Ht & Hd & Hin)%submission_Some.
  unfold POST, try_catch, bind, lift, destructure. rewrite Ht, Hd.
  cbn [ret fst snd]. rewrite (valid_type_passes _ Hin).
  destruct (getDbClient w) as [[u|e] w1]; [|done].
  cbn [text_of].
  destruct (insert_job _ _ _ _ _ w1) as [[u2|e] w2]; [|done].
  destruct (publishEmailJob _ _ _ _ _ w2) as [[n|e] w3]; done.
Qed.

Lemma POST_rejected env rj w :
  submission rj = None ->
  exists r, POST env rj w = (Ok r, w) /\ (code r = 400 \/ code r = 500).
Proof.
  intros H. unfold POST, try_catch, bind, lift, destructure.
  destruct rj as [body|e]; [|eexists; split; [done|by right]].
  unfold submission in H.
  destruct (get_prop "jobType" body) as [t|] eqn:Ht;
    [|eexists; split; [done|by right]].
  destruct (get_prop "jobData" body) as [d|] eqn:Hd;
    [|eexists; split; [done|by right]].
  cbn [ret fst snd].
  destruct (negb (truthy t) || negb (includes validJobTypes t)) eqn:Hv;
    [eexists; split; [done|by left]|].
  exfalso. apply orb_false_elim in Hv as [_ Hi%negb_false_iff].
  destruct t as [[| | |s| |]|]; try done. simpl in Hi.
  by rewrite Hi in H.
Qed.

Lemma insert_job_ok q id jt data w :
  q_fault q = None -> jt ∈ job_types -> db w !! id = None ->
  insert_job q id jt pending data w =
    (Ok tt, emit (EvInsert id true)
              (set_db (insert id (new_row jt data (q_now q))) w)).
Proof.
  intros Hq Hjt Hid. unfold insert_job.
  by rewrite Hq, (bool_decide_eq_true_2 _ Hjt), Hid.
Qed.

Lemma insert_job_fail q id jt data w :
  (is_Some (q_fault q) \/ jt ∉ job_types \/ is_Some (db w !! id)) ->
  exists e, insert_job q id jt pending data w =
    (Throw e, emit (EvInsert id false) w).
Proof.
  intros H. unfold insert_job.
  destruct (q_fault q) as [msg|]; [by eexists|].
  case_bool_decide; simpl; [|by eexists].
  destruct (db w !! id) eqn:Hid; [by eexists|].
  destruct H as [[? [=]]|[?|[? [=]]]]. done.
Qed.

Lemma insert_job_cases q id jt w :
  (q_fault q = None /\ jt ∈ job_types /\ db w !! id = None) \/
  (is_Some (q_fault q) \/ jt ∉ job_types \/ is_Some (db w !! id)).
Proof.
  destruct (q_fault q); [right; left; eauto|].
  destruct (decide (jt ∈ job_types)); [|right; right; left; done].
  destruct (db w !! id); [right; right; right; eauto|]. by left.
Qed.

Lemma set_queues_known q w : q ∈ queues w -> set_queues ({[q]} ∪ queues w) w = w.
Proof.
  intros H%singleton_subseteq_l%subseteq_union_1_L.
  rewrite H. by destruct w.
Qed.

Lemma publishEmailJob_ok d1 d2 input w :
  let jobs := default [] (redis w !! "email") in
  publishEmailJob None d1 d2 input None w =
    (Ok (S (List.length jobs)),
     emit (EvAdd "email" (in_jobId input) true)
       (set_redis (<["email" := (jobs ++ [email_job (S (List.length jobs)) d1 d2 input])%list]> (redis w))
          (set_queues ({["email"]} ∪ queues w) w))).
Proof.
  unfold publishEmailJob, publishJob, getQueue, queue_add, bind, gets, update, ret.
  case_bool_decide as Hq; simpl; [|done].
  by rewrite (set_queues_known _ _ Hq).
Qed.

Lemma publishEmailJob_fail msg d1 d2 input w :
  publishEmailJob (Some msg) d1 d2 input None w =
    (Throw msg, emit (EvAdd "email" (in_jobId input) false)
                  (set_queues ({["email"]} ∪ queues w) w)).
Proof.
  unfold publishEmailJob, publishJob, getQueue, queue_add, bind, gets, update, ret.
  case_bool_decide as Hq; simpl; [|done].
  by rewrite (set_queues_known _ _ Hq).
Qed.

Lemma POST_cases env rj w :
  exists r w', POST env rj w = (Ok r, w') /\ PostCase env rj w r w'.
Proof.
  destruct (submission rj) as [[jt d]|] eqn:Hs.
  2: { destruct (POST_rejected env rj w Hs) as (r & -> & Hr).
       exists r, w. split; [done|]. constructor. lia. }
  rewrite (POST_accepted _ _ _ _ _ Hs).
  destruct (db_ready w) eqn:Hr.
  2: { rewrite (getDbClient_not_ready _ Hr). do 2 eexists. split; [done|].
       by constructor. }
  rewrite (getDbClient_ready _ Hr).
  pose proof Hs as (body & _ & _ & _ & Hin)%submission_Some.
  destruct (insert_job_cases (insert_env env) (uuid env) jt (set_pool true w))
    as [(Hq & _ & Hid)|Hf].
  2: { eapply insert_job_fail in Hf as [e ->]. do 2 eexists. split; [done|].
       constructor. }
  rewrite insert_job_ok by done.
  destruct (add_fault env) as [msg|].
  - rewrite publishEmailJob_fail. do 2 eexists. split; [done|].
    by apply (post_not_queued env rj w jt d).
  - rewrite publishEmailJob_ok. do 2 eexists. split; [done|].
    by apply (post_created env rj w jt d).
Qed.

Lemma POST_created_ok env rj w jt d :
  submission rj = Some (jt, d) -> db_ready w = true ->
  q_fault (insert_env env) = None -> add_fault env = None ->
  db w !! uuid env = None ->
  POST env rj w = (Ok (created (uuid env)), queued env jt d w).
Proof.
  intros Hs Hr Hq Ha Hid.
  rewrite (POST_accepted _ _ _ _ _ Hs), (getDbClient_ready _ Hr).
  pose proof Hs as (body & _ & _ & _ & Hin)%submission_Some.
  rewrite insert_job_ok by done. rewrite Ha.
  by rewrite publishEmailJob_ok.
Qed.

(** ** The publisher *)

(** C5: a request whose [jobType] is not one of the registered types is
    answered 400 with a validation error, and the state is left as it was:
    no row is written and nothing is queued. *)
Theorem POST_unregistered_type_rejected env body w t :
  get_prop "jobType" body = Some t ->
  (forall s, t = Some (JStr s) -> s ∉ validJobTypes) ->
  POST env (Ok body) w =
    (Ok {| code := 400;
           body := ErrorBody
             "Invalid job type. Must be one of: email, notification, report" |},
     w).
Proof.
  intros Ht Hs.
  assert (exists d, get_prop "jobData" body = Some d) as [d Hd].
  { destruct body; simpl in *; try discriminate; eauto. }
  unfold POST, try_catch, bind, lift, destructure. rewrite Ht, Hd.
  cbn [ret fst snd].
  assert (negb (truthy t) || negb (includes validJobTypes t) = true) as ->;
    [|reflexivity].
  destruct (negb (truthy t) || negb (includes validJobTypes t)) eqn:E; [done|].
  apply orb_false_elim in E as [_ Hi%negb_false_iff].
  destruct t as [[| | |s| |]|]; try done.
  apply bool_decide_eq_true in Hi. by destruct (Hs s eq_refl).
Qed.

Lemma POST_unregistered_type_rejected_witness :
  POST (post_env id1 100) (Ok (body_of "sms")) world0 =
    (Ok {| code := 400;
           body := ErrorBody
             "Invalid job type. Must be one of: email, notification, report" |},
     world0).
Proof.
  apply (POST_unregistered_type_rejected _ _ _ (Some (JStr "sms"))).
  - reflexivity.
  - intros s [= <-]. unfold validJobTypes. set_unfold. intros [?|[?|[?|[]]]]; discriminate.
Defined.

Lemma new_jobs_same w w' q : redis w' = redis w -> new_jobs w w' q = [].
Proof. intros H. unfold new_jobs. rewrite H. apply drop_all. Qed.

(** C6: in every execution of [POST] the row is written before the
    message is queued: in the events of the call an [EvAdd] comes only
    after a successful [EvInsert] of the same id; when the row was not
    written, Redis is as it was; and every message the call queued names a
    job that has a row. *)
Theorem POST_store_write_before_enqueue env rj w :
  exists evs,
    trace (snd (POST env rj w)) = (trace w ++ evs)%list /\
    (forall i q id ok, evs !! i = Some (EvAdd q id ok) ->
       exists j, (j < i)%nat /\ evs !! j = Some (EvInsert id true)) /\
    (EvInsert (uuid env) true ∉ evs -> redis (snd (POST env rj w)) = redis w) /\
    (forall q job, job ∈ new_jobs w (snd (POST env rj w)) q ->
       is_Some (db (snd (POST env rj w)) !! jobId (bj_data job))).
Proof.
  destruct (POST_cases env rj w) as (r & w' & -> & Hc). cbn [snd].
  destruct Hc as [r Hr|e|jt d e Hs Hid|jt d Hs Hid].
  - exists []. rewrite app_nil_r.
    split; [done|]. split; [|split; [done|]].
    + intros i q id ok H. by rewrite lookup_nil in H.
    + intros q job. rewrite new_jobs_same by done. by intros ?%elem_of_nil.
  - exists [EvInsert (uuid env) false].
    split; [done|]. split; [|split; [done|]].
    + intros [|[|i]] ????; simplify_eq/=.
    + intros q job. rewrite new_jobs_same by done. by intros ?%elem_of_nil.
  - exists [EvInsert (uuid env) true; EvAdd "email" (uuid env) false].
    split; [|split; [|split]].
    + cbn. by rewrite <- app_assoc.
    + intros [|[|[|i]]] ????; simplify_eq/=. exists 0%nat. split; [lia|done].
    + intros []. apply list_elem_of_here.
    + intros q job. rewrite new_jobs_same by done. by intros ?%elem_of_nil.
  - exists [EvInsert (uuid env) true; EvAdd "email" (uuid env) true].
    split; [|split; [|split]].
    + cbn. by rewrite <- app_assoc.
    + intros [|[|[|i]]] ????; simplify_eq/=. exists 0%nat. split; [lia|done].
    + intros []. apply list_elem_of_here.
    + intros q job. unfold new_jobs. cbn.
      destruct (decide (q = "email")) as [->|Hq].
      * rewrite lookup_insert_eq. cbn. rewrite drop_app_length.
        intros ->%list_elem_of_singleton. cbn. by rewrite lookup_insert_eq.
      * rewrite lookup_insert_ne by done. rewrite drop_all. by intros ?%elem_of_nil.
Qed.

(** ** The processor, statement by statement *)

Lemma update_job_ok q id st set w :
  q_fault q = None ->
  update_job q id st set w = (Ok tt, after_update q id st set w).
Proof. intros H. unfold update_job. by rewrite H. Qed.

Lemma update_job_fail q id st set w msg :
  q_fault q = Some msg ->
  update_job q id st set w = (Throw msg, emit (EvUpdate id st false) w).
Proof. intros H. unfold update_job. by rewrite H. Qed.

Lemma processEmailJob_eq env job w :
  processEmailJob env job w =
    let id := jobId (bj_data job) in
    if negb (db_ready w) then
      (Throw "DATABASE_URL environment variable is not set", w)
    else
      match q_fault (q1 env) with
      | Some msg =>
        (Throw msg, emit (EvUpdate id processing false) (set_pool true w))
      | None =>
        match q_fault (q2 env) with
        | None =>
          (Ok tt, after_update (q2 env) id completed
                    (set_status_completed_at completed) (handled env job w))
        | Some e =>
          let w' := emit (EvUpdate id completed false) (handled env job w) in
          match q_fault (q3 env) with
          | None =>
            (Throw e, after_update (q3 env) id failed
                        (set_status_error_message failed e) w')
          | Some e' => (Throw e', emit (EvUpdate id failed false) w')
          end
        end
      end.
Proof.
  cbv zeta. unfold processEmailJob, bind at 1.
  destruct (db_ready w) eqn:Hr; cbn [negb].
  2: { by rewrite (getDbClient_not_ready _ Hr). }
  rewrite (getDbClient_ready _ Hr). unfold bind at 1.
  destruct (q_fault (q1 env)) as [msg|] eqn:H1.
  { by rewrite (update_job_fail _ _ _ _ _ _ H1). }
  rewrite (update_job_ok _ _ _ _ _ H1).
  unfold try_catch, bind, send_email, update, throw. fold (handled env job w).
  destruct (q_fault (q2 env)) as [e|] eqn:H2.
  2: { by rewrite (update_job_ok _ _ _ _ _ H2). }
  rewrite (update_job_fail _ _ _ _ _ _ H2).
  destruct (q_fault (q3 env)) as [e'|] eqn:H3.
  - by rewrite (update_job_fail _ _ _ _ _ _ H3).
  - by rewrite (update_job_ok _ _ _ _ _ H3).
Qed.

(** Neither statement of the processor adds or removes a row. *)
Lemma processEmailJob_dom env job w id :
  is_Some (db (snd (processEmailJob env job w)) !! id) <-> is_Some (db w !! id).
Proof.
  rewrite processEmailJob_eq. cbv zeta.
  destruct (negb (db_ready w)); [done|].
  destruct (q_fault (q1 env)); [done|].
  destruct (q_fault (q2 env)); [destruct (q_fault (q3 env))|]; cbn;
    rewrite ?lookup_alter_is_Some; done.
Qed.

Lemma GET_eq q ps w :
  GET q ps w =
    if negb (db_ready w) then
      (Ok (failure "Failed to fetch jobs"
             "DATABASE_URL environment variable is not set"), w)
    else if is_set (assoc "jobId" ps) then
      match select_job q (or_string (assoc "jobId" ps) EmptyString)
              (set_pool true w) with
      | (Throw e, w') => (Ok (failure "Failed to fetch jobs" e), w')
      | (Ok [], w') =>
        (Ok {| code := 404; body := ErrorBody "Job not found" |}, w')
      | (Ok (job :: _), w') => (Ok {| code := 200; body := JobBody job |}, w')
      end
    else
      let limit := parseInt (or_string (assoc "limit" ps) "50") in
      let offset := parseInt (or_string (assoc "offset" ps) "0") in
      match select_jobs q (if is_set (assoc "status" ps)
                           then assoc "status" ps else None)
              limit offset (set_pool true w) with
      | (Throw e, w') => (Ok (failure "Failed to fetch jobs" e), w')
      | (Ok rows, w') =>
        (Ok {| code := 200;
               body := JobsBody rows (List.length rows) (json_number limit)
                         (json_number offset) |}, w')
      end.
Proof.
  cbv zeta. unfold GET, try_catch, bind at 1.
  destruct (db_ready w) eqn:Hr; cbn [negb].
  2: { by rewrite (getDbClient_not_ready _ Hr). }
  rewrite (getDbClient_ready _ Hr).
  destruct (is_set (assoc "jobId" ps)); unfold bind.
  - destruct (select_job _ _ _) as [[[|job rows]|e] w']; done.
  - destruct (select_jobs _ _ _ _ _) as [[rows|e] w']; done.
Qed.

Lemma select_job_state q id w :
  exists ok, snd (select_job q id w) = emit (EvSelect ok) w.
Proof.
  unfold select_job. destruct (q_fault q); [by eexists|].
  destruct (db w !! id); [by eexists|]. destruct (uuid_in id); by eexists.
Qed.

Lemma select_jobs_state q st l o w :
  exists ok, snd (select_jobs q st l o w) = emit (EvSelect ok) w.
Proof.
  unfold select_jobs. destruct (q_fault q); [by eexists|].
  destruct (match st with Some s => has_nul s | None => false end);
    [by eexists|].
  destruct l as [| |l], o as [| |o]; try by eexists.
  destruct (l <? 0)%Z; [by eexists|]. destruct (o <? 0)%Z; [by eexists|].
  destruct ((bigint_max <? l)%Z || (bigint_max <? o)%Z); by eexists.
Qed.

(** [GET] answers, and leaves the table and the queues as they are. *)
Lemma GET_state q ps w :
  exists r w', GET q ps w = (Ok r, w') /\ db w' = db w /\ redis w' = redis w /\
    code r <> 201.
Proof.
  rewrite GET_eq. cbv zeta.
  destruct (negb (db_ready w)); [by do 2 eexists|].
  destruct (is_set (assoc "jobId" ps)).
  - destruct (select_job_state q (or_string (assoc "jobId" ps) EmptyString)
                (set_pool true w)) as [ok Hw].
    destruct (select_job _ _ _) as [[[|job rows]|e] w']; cbn in Hw; subst w';
      by do 2 eexists.
  - match goal with |- context [select_jobs ?q ?s ?l ?o ?w] =>
      destruct (select_jobs_state q s l o w) as [ok Hw];
      destruct (select_jobs q s l o w) as [[rows|e] w'] end;
      cbn in Hw; subst w'; by do 2 eexists.
Qed.

Lemma POST_keeps_rows env rj w id r :
  db w !! id = Some r -> db (snd (POST env rj w)) !! id = Some r.
Proof.
  intros Hid. destruct (POST_cases env rj w) as (r' & w' & -> & Hc). cbn [snd].
  destruct Hc as [r' Hr|e|jt d e Hs Hnew|jt d Hs Hnew]; cbn; try done.
  all: rewrite lookup_insert_ne; [done|congruence].
Qed.

Lemma step_keeps_ids op w id :
  is_Some (db w !! id) -> is_Some (db (snd (step op w)) !! id).
Proof.
  intros Hid. destruct op as [env rj|q ps|env job]; cbn.
  - destruct Hid as [r Hr]. apply (POST_keeps_rows env rj) in Hr.
    destruct (POST env rj w). eauto.
  - destruct (GET_state q ps w) as (r & w' & -> & Hdb & _). cbn. by rewrite Hdb.
  - apply (processEmailJob_dom env job) in Hid.
    by destruct (processEmailJob env job w).
Qed.

Lemma run_keeps_ids ops w id :
  is_Some (db w !! id) -> is_Some (db (snd (run ops w)) !! id).
Proof.
  revert w. induction ops as [|op ops IH]; intros w Hid; [done|].
  cbn. apply (step_keeps_ids op) in Hid.
  destruct (step op w) as [o w1]. specialize (IH w1 Hid).
  by destruct (run ops w1).
Qed.

Lemma not_created r : code r <> 201 -> created_id (Replied (Ok r)) = None.
Proof. intros H. cbn. by apply Z.eqb_neq in H as ->. Qed.

Lemma step_created_in_db op w id :
  created_id (fst (step op w)) = Some id ->
  is_Some (db (snd (step op w)) !! id).
Proof.
  destruct op as [env rj|q ps|env job]; cbn.
  - destruct (POST_cases env rj w) as (r & w' & -> & Hc). cbn [fst snd].
    destruct Hc as [r Hr|e|jt d e Hs Hnew|jt d Hs Hnew]; try done.
    + by rewrite (not_created _ Hr).
    + cbn. intros [= <-]. by rewrite lookup_insert_eq.
  - destruct (GET_state q ps w) as (r & w' & -> & _ & _ & Hc). cbn [fst snd].
    by rewrite (not_created _ Hc).
  - by destruct (processEmailJob env job w).
Qed.

Lemma run_created_in_db ops w id :
  Some id ∈ created_id <$> fst (run ops w) ->
  is_Some (db (snd (run ops w)) !! id).
Proof.
  revert w. induction ops as [|op ops IH]; intros w; cbn.
  { by intros ?%elem_of_nil. }
  pose proof (step_created_in_db op w id) as Hstep.
  destruct (step op w) as [o w1]. specialize (IH w1).
  pose proof (run_keeps_ids ops w1 id) as Hkeep.
  destruct (run ops w1) as [os w2]. cbn in *.
  intros [Ho|Hos]%elem_of_cons; [|by apply IH].
  apply Hkeep, Hstep. by symmetry.
Qed.

Lemma GET_by_id q id w row :
  id <> EmptyString -> db_ready w = true -> q_fault q = None ->
  db w !! id = Some row ->
  fst (GET q [("jobId", id)] w) = Ok {| code := 200; body := JobBody (id, row) |}.
Proof.
  intros Hid Hr Hq Hrow. rewrite GET_eq, Hr. cbn -[select_job].
  assert (negb (String.eqb id EmptyString) = true) as Hne.
  { apply negb_true_iff, String.eqb_neq, Hid. }
  rewrite Hne. apply negb_true_iff in Hne. rewrite Hne.
  unfold select_job. rewrite Hq. cbn. by rewrite Hrow.
Qed.

(** C1: a valid submission that [POST] answers with 201 gets the
    identifier drawn for it, which no earlier reply of the run carried and
    which had no row; right after the call the row of that identifier
    exists with status [pending] and [GET] by that identifier returns it.
    [POST] does answer 201 when the database and Redis do not fail and the
    drawn identifier has no row yet. *)
Theorem POST_returns_fresh_pending_job ops w0 env rj jt d :
  submission rj = Some (jt, d) ->
  uuid env <> EmptyString ->
  let w := snd (run ops w0) in
  (forall r w', POST env rj w = (Ok r, w') -> code r = 201 ->
     r = created (uuid env) /\
     db w !! uuid env = None /\
     (Some (uuid env) ∉ created_id <$> fst (run ops w0)) /\
     exists row, db w' !! uuid env = Some row /\ status row = pending /\
       forall q, q_fault q = None ->
         fst (GET q [("jobId", uuid env)] w') =
           Ok {| code := 200; body := JobBody (uuid env, row) |}) /\
  (db_ready w = true -> q_fault (insert_env env) = None ->
   add_fault env = None -> db w !! uuid env = None ->
   exists w', POST env rj w = (Ok (created (uuid env)), w')).
Proof.
  intros Hs Hne w. split.
  - intros r w' HP Hcode.
    destruct (POST_cases env rj w) as (r' & w'' & HP' & Hc).
    rewrite HP in HP'. injection HP' as <- <-.
    destruct Hc as [r Hr|e|jt' d' e Hs' Hnew|jt' d' Hs' Hnew]; try done.
    split; [done|]. split; [done|]. split.
    + intros Hin%run_created_in_db. fold w in Hin. rewrite Hnew in Hin.
      by destruct Hin.
    + eexists. split; [cbn; apply lookup_insert_eq|]. split; [done|].
      intros q Hq. apply GET_by_id; try done. cbn. apply lookup_insert_eq.
  - intros Hr Hq Ha Hnew. eexists. by apply POST_created_ok.
Qed.

Lemma POST_returns_fresh_pending_job_witness :
  exists w' row,
    POST (post_env id2 200) (Ok (body_of "report")) (snd (run history1 world0)) =
      (Ok (created id2), w') /\
    (Some id2 ∉ created_id <$> fst (run history1 world0)) /\
    db w' !! id2 = Some row /\ status row = pending /\
    fst (GET (qok 300) [("jobId", id2)] w') =
      Ok {| code := 200; body := JobBody (id2, row) |}.
Proof.
  destruct (POST_returns_fresh_pending_job history1 world0 (post_env id2 200)
              (Ok (body_of "report")) "report"
              (Some (JObj [("to", JStr "a@b.com")])))
    as [Hfresh Hruns].
  - reflexivity.
  - discriminate.
  - destruct Hruns as [w' HP]; [vm_compute; reflexivity ..|].
    destruct (Hfresh _ _ HP eq_refl) as (_ & _ & Hnew & row & Hrow & Hst & Hget).
    exists w', row. repeat split; try done. by apply Hget.
Defined.

(** C10: every accepted submission, whichever of the three types it has,
    is queued on the queue named [email], the one the email worker
    consumes: that queue gains exactly the message of the job, carrying the
    submitted type, every other queue is as it was, and the only queue
    handle the call may open is the one of [email]. *)
Theorem POST_queues_on_email_only env rj w r w' :
  POST env rj w = (Ok r, w') -> code r = 201 ->
  exists jt d n,
    submission rj = Some (jt, d) /\ jt ∈ validJobTypes /\
    new_jobs w w' "email" =
      [email_job n (date1 env) (date2 env) (post_input env jt d)] /\
    (forall q, q <> "email" -> redis w' !! q = redis w !! q) /\
    queues w' = {["email"]} ∪ queues w /\
    wk_queue emailWorker = "email".
Proof.
  intros HP Hcode.
  destruct (POST_cases env rj w) as (r' & w'' & HP' & Hc).
  rewrite HP in HP'. injection HP' as <- <-.
  destruct Hc as [r Hr|e|jt d e Hs Hnew|jt d Hs Hnew]; try done.
  pose proof Hs as (body & _ & _ & _ & Hin)%submission_Some.
  exists jt, d. eexists. split; [done|]. split; [done|]. split; [|split; [|done]].
  - unfold new_jobs, queued. cbn. rewrite lookup_insert_eq. cbn.
    by rewrite drop_app_length.
  - intros q Hq. cbn. by rewrite lookup_insert_ne.
Qed.

Lemma POST_queues_on_email_only_witness :
  exists jt d n,
    submission (Ok (body_of "report")) = Some (jt, d) /\ jt ∈ validJobTypes /\
    new_jobs world0 (world1 "report") "email" =
      [email_job n 100 100 (post_input (post_env id1 100) jt d)] /\
    (forall q, q <> "email" -> redis (world1 "report") !! q = redis world0 !! q) /\
    queues (world1 "report") = {["email"]} ∪ queues world0 /\
    wk_queue emailWorker = "email".
Proof.
  apply (POST_queues_on_email_only (post_env id1 100) (Ok (body_of "report"))
           world0 (created id1) (world1 "report")).
  - vm_compute. reflexivity.
  - reflexivity.
Defined.

(** ** The worker *)

(** [job1] is the message that the submission of [id1] left on the queue. *)
Lemma world1_queue : redis (world1 "email") !! "email" = Some [job1].
Proof. vm_compute. reflexivity. Qed.

Lemma db_ready_set_pool w : db_ready (set_pool true w) = true.
Proof. reflexivity. Qed.

Lemma updated_status q st r : status (updated q (set_status st) r) = st.
Proof. reflexivity. Qed.

(** C2, as the specification has it, fails: the row of [id1] is
    [completed], the specification allows no transition from [completed]
    to [processing], and yet the update to [processing] succeeds and is
    applied. *)
Lemma update_job_applies_forbidden_transition :
  status <$> db world_done !! id1 = Some completed /\
  spec_allowed_transition completed processing = false /\
  fst (update_job (qok 120) id1 processing (set_status processing) world_done)
    = Ok tt /\
  status <$> db (snd (update_job (qok 120) id1 processing
                        (set_status processing) world_done)) !! id1
    = Some processing.
Proof. vm_compute. repeat split; reflexivity. Qed.

(** C2, amended: for a job that has a row, each of the three status
    updates the worker issues succeeds whatever the current status of the
    row is, leaves the row with the requested status, and changes no
    other row. *)
Theorem update_job_applies_every_transition q id st msg w row set :
  q_fault q = None -> db w !! id = Some row ->
  set ∈ [set_status st; set_status_completed_at st;
         set_status_error_message st msg] ->
  exists w' row',
    update_job q id st set w = (Ok tt, w') /\
    db w' !! id = Some row' /\ status row' = st /\
    forall id', id' <> id -> db w' !! id' = db w !! id'.
Proof.
  intros Hq Hrow Hset. rewrite (update_job_ok _ _ _ _ _ Hq).
  exists (after_update q id st set w), (updated q set row).
  split; [done|]. split; [|split].
  - cbn. by rewrite lookup_alter_eq, Hrow.
  - set_unfold. by destruct Hset as [-> | [-> | [-> | []]]].
  - intros id' Hne. cbn. by rewrite lookup_alter_ne.
Qed.

Lemma update_job_applies_every_transition_witness :
  exists w' row',
    update_job (qok 120) id1 pending (set_status pending) world_done
      = (Ok tt, w') /\
    db w' !! id1 = Some row' /\ status row' = pending /\
    forall id', id' <> id1 -> db w' !! id' = db world_done !! id'.
Proof.
  eapply (update_job_applies_every_transition (qok 120) id1 pending
            EmptyString world_done).
  - reflexivity.
  - vm_compute. reflexivity.
  - apply list_elem_of_here.
Defined.

Lemma sends_app id evs evs' :
  sends id (evs ++ evs') = (sends id evs + sends id evs')%nat.
Proof. unfold sends. by rewrite List.filter_app, length_app. Qed.

Lemma sends_send id d : sends id [EvSend id d] = 1%nat.
Proof. unfold sends. cbn. by rewrite String.eqb_refl. Qed.

(** The events of one delivery, when the database is reachable and the
    first statement succeeds: the update to [processing], the sending,
    and the updates that follow. *)
Lemma processEmailJob_trace env job w :
  db_ready w = true -> q_fault (q1 env) = None ->
  let id := jobId (bj_data job) in
  exists st ok rest,
    trace (snd (processEmailJob env job w)) =
      (trace w ++ [EvUpdate id processing true;
                   EvSend id (default JNull (jobData (bj_data job)));
                   EvUpdate id st ok] ++ rest)%list /\
    sends id rest = 0%nat /\
    db_ready (snd (processEmailJob env job w)) = true.
Proof.
  intros Hr H1 id. rewrite processEmailJob_eq. cbv zeta. rewrite Hr, H1. cbn [negb].
  destruct (q_fault (q2 env)) as [e|]; [destruct (q_fault (q3 env)) as [e'|]|].
  - exists completed, false, [EvUpdate id failed false].
    split; [|done]. cbn. by rewrite <- !app_assoc.
  - exists completed, false, [EvUpdate id failed true].
    split; [|done]. cbn. by rewrite <- !app_assoc.
  - exists completed, true, []. split; [|done]. cbn. by rewrite <- !app_assoc.
Qed.

(** The row of a job after one delivery, by the outcome of the statements. *)
Lemma processEmailJob_row env job w row :
  db_ready w = true -> q_fault (q1 env) = None ->
  db w !! jobId (bj_data job) = Some row ->
  let r1 := updated (q1 env) (set_status processing) row in
  db (snd (processEmailJob env job w)) !! jobId (bj_data job) =
    Some match q_fault (q2 env), q_fault (q3 env) with
         | None, _ => updated (q2 env) (set_status_completed_at completed) r1
         | Some e, None =>
           updated (q3 env) (set_status_error_message failed e) r1
         | Some _, Some _ => r1
         end.
Proof.
  intros Hr H1 Hrow. rewrite processEmailJob_eq. cbv zeta.
  rewrite Hr, H1. cbn [negb].
  destruct (q_fault (q2 env)) as [e|]; [destruct (q_fault (q3 env)) as [e'|]|];
    cbn; rewrite ?lookup_alter_eq, Hrow; done.
Qed.

Lemma processEmailJob_final_status env job w row :
  db_ready w = true -> q_fault (q1 env) = None ->
  db w !! jobId (bj_data job) = Some row ->
  status <$> db (snd (processEmailJob env job w)) !! jobId (bj_data job) =
    Some (final_status env).
Proof.
  intros Hr H1 Hrow. rewrite (processEmailJob_row _ _ _ _ Hr H1 Hrow).
  cbv zeta. unfold final_status.
  by destruct (q_fault (q2 env)); [destruct (q_fault (q3 env))|].
Qed.

(** C3, as the specification has it, fails: the message of [id1] is
    delivered twice; the second delivery finds the row [completed], and
    the handler is executed a second time all the same. *)
Lemma duplicate_delivery_runs_handler_twice :
  let w1 := snd (processEmailJob (proc_ok 110) job1 (world1 "email")) in
  let w2 := snd (processEmailJob (proc_ok 120) job1 w1) in
  status <$> db (world1 "email") !! id1 = Some pending /\
  sends id1 (trace (world1 "email")) = 0%nat /\
  status <$> db w1 !! id1 = Some completed /\
  sends id1 (trace w1) = 1%nat /\
  sends id1 (trace w2) = 2%nat.
Proof. vm_compute. repeat split; reflexivity. Qed.

(** C3, amended: a delivery first sets the row to [processing] whatever
    its status is, without looking for a duplicate, and then executes the
    handler, once; so two deliveries of one message execute it twice.  Each
    delivery leaves on the row the status of its own outcome: [completed]
    when its update to [completed] succeeds, [failed] when that update
    fails and the failure is recorded, [processing] when both fail. *)
Theorem each_delivery_runs_handler env env' job w :
  db_ready w = true -> q_fault (q1 env) = None -> q_fault (q1 env') = None ->
  let id := jobId (bj_data job) in
  let w1 := snd (processEmailJob env job w) in
  let w2 := snd (processEmailJob env' job w1) in
  (exists evs, trace w1 =
     (trace w ++ EvUpdate id processing true
              :: EvSend id (default JNull (jobData (bj_data job))) :: evs)%list) /\
  sends id (trace w1) = S (sends id (trace w)) /\
  sends id (trace w2) = S (S (sends id (trace w))) /\
  (forall row, db w !! id = Some row ->
     status <$> db w1 !! id = Some (final_status env) /\
     status <$> db w2 !! id = Some (final_status env')).
Proof.
  intros Hr H1 H1' id w1 w2.
  destruct (processEmailJob_trace env job w Hr H1)
    as (st & ok & rest & Ht & Hrest & Hr1).
  fold w1 id in Ht, Hr1.
  destruct (processEmailJob_trace env' job w1 Hr1 H1')
    as (st' & ok' & rest' & Ht' & Hrest' & _).
  fold w2 id in Ht'.
  assert (forall evs st ok rest, sends id rest = 0%nat ->
            sends id (evs ++ [EvUpdate id processing true;
                       EvSend id (default JNull (jobData (bj_data job)));
                       EvUpdate id st ok] ++ rest) = S (sends id evs)) as Hcount.
  { intros evs s o r Hz. rewrite !sends_app, Hz.
    change (sends id [EvUpdate id processing true; EvSend id _; EvUpdate id s o])
      with (sends id [EvSend id (default JNull (jobData (bj_data job)))]).
    rewrite sends_send. lia. }
  split; [|split; [|split]].
  - rewrite Ht. by eexists.
  - rewrite Ht. by apply Hcount.
  - rewrite Ht', Hcount by done. rewrite Ht. f_equal. by apply Hcount.
  - intros row Hrow.
    pose proof (processEmailJob_final_status env job w row Hr H1 Hrow) as Hs1.
    fold w1 id in Hs1. split; [done|].
    destruct (db w1 !! id) as [row1|] eqn:Hrow1; [|done].
    apply (processEmailJob_final_status env' job w1 row1 Hr1 H1' Hrow1).
Qed.

Lemma each_delivery_runs_handler_witness :
  let w1 := snd (processEmailJob (proc_ok 110) job1 (world1 "email")) in
  let w2 := snd (processEmailJob
                   {| q1 := qok 120; q2 := qfail 121; q3 := qfail 122 |}
                   job1 w1) in
  (exists evs, trace w1 =
     (trace (world1 "email") ++ EvUpdate id1 processing true
        :: EvSend id1 (JObj [("to", JStr "a@b.com")]) :: evs)%list) /\
  sends id1 (trace w1) = S (sends id1 (trace (world1 "email"))) /\
  sends id1 (trace w2) = S (S (sends id1 (trace (world1 "email")))) /\
  (forall row, db (world1 "email") !! id1 = Some row ->
     status <$> db w1 !! id1 = Some completed /\
     status <$> db w2 !! id1 = Some processing).
Proof.
  apply (each_delivery_runs_handler (proc_ok 110)
           {| q1 := qok 120; q2 := qfail 121; q3 := qfail 122 |} job1
           (world1 "email")); reflexivity.
Defined.




(** C9, as the specification has it, fails.  A job whose three deliveries
    all fail ends [failed] with [completed_at] still null; and a job
    completed by two deliveries has [completed_at] written twice, with
    different times. *)
Lemma completed_at_not_written_once :
  let wf := snd (processEmailJob (proc_fail 130) job1
              (snd (processEmailJob (proc_fail 120) job1
                 (snd (processEmailJob (proc_fail 110) job1
                    (world1 "email")))))) in
  let w2 := snd (processEmailJob (proc_ok 120) job1 world_done) in
  (status <$> db wf !! id1 = Some failed /\
   completed_at <$> db wf !! id1 = Some None) /\
  (completed_at <$> db world_done !! id1 = Some (Some 111) /\
   completed_at <$> db w2 !! id1 = Some (Some 121)).
Proof. vm_compute. repeat split; reflexivity. Qed.

(** C9, amended: a delivery that completes the job writes [completed_at],
    on every completion and not only the first; a delivery that fails
    leaves [completed_at] as it was, so a job that only ever failed has
    none; and [updated_at] is the time of the last statement that
    succeeded, each status update setting it. *)
Theorem delivery_timestamps env job w row :
  db_ready w = true -> q_fault (q1 env) = None ->
  db w !! jobId (bj_data job) = Some row ->
  exists row',
    db (snd (processEmailJob env job w)) !! jobId (bj_data job) = Some row' /\
    created_at row' = created_at row /\
    match q_fault (q2 env), q_fault (q3 env) with
    | None, _ =>
      status row' = completed /\ completed_at row' = Some (q_now (q2 env)) /\
      updated_at row' = q_now (q2 env)
    | Some e, None =>
      status row' = failed /\ completed_at row' = completed_at row /\
      updated_at row' = q_now (q3 env) /\ error_message row' = Some e
    | Some _, Some _ =>
      status row' = processing /\ completed_at row' = completed_at row /\
      updated_at row' = q_now (q1 env)
    end.
Proof.
  intros Hr H1 Hrow.
  rewrite (processEmailJob_row _ _ _ _ Hr H1 Hrow). cbv zeta.
  eexists. split; [done|].
  destruct (q_fault (q2 env)) as [e|]; [destruct (q_fault (q3 env)) as [e'|]|];
    done.
Qed.

Lemma delivery_timestamps_witness :
  exists row',
    db (snd (processEmailJob (proc_fail 120) job1 world_done)) !! id1
      = Some row' /\
    created_at row' = 100 /\
    status row' = failed /\ completed_at row' = Some 111 /\
    updated_at row' = 122 /\
    error_message row' = Some "Connection terminated unexpectedly".
Proof.
  apply (delivery_timestamps (proc_fail 120) job1 world_done
           {| job_type := "email"; status := completed;
              job_data := JObj [("to", JStr "a@b.com")];
              result := None; error_message := None;
              created_at := 100; updated_at := 111;
              completed_at := Some 111 |}); reflexivity.
Defined.

(** ** What no operation changes *)

Lemma processEmailJob_keeps_result env job w id row :
  db w !! id = Some row ->
  exists row',
    db (snd (processEmailJob env job w)) !! id = Some row' /\
    result row' = result row /\
    (jobId (bj_data job) <> id -> row' = row).
Proof.
  intros Hrow. rewrite processEmailJob_eq. cbv zeta.
  destruct (negb (db_ready w)); [by eexists|].
  destruct (q_fault (q1 env)); [by eexists|].
  destruct (decide (jobId (bj_data job) = id)) as [<-|Hne].
  - destruct (q_fault (q2 env)) as [e|]; [destruct (q_fault (q3 env)) as [e'|]|];
      cbn; rewrite ?lookup_alter_eq, Hrow; cbn;
      eexists; (split; [reflexivity|]); (split; [reflexivity|]); done.
  - destruct (q_fault (q2 env)) as [e|]; [destruct (q_fault (q3 env)) as [e'|]|];
      cbn; rewrite ?lookup_alter_ne by done; by eexists.
Qed.

Lemma step_keeps_result op w id row :
  db w !! id = Some row ->
  exists row',
    db (snd (step op w)) !! id = Some row' /\
    result row' = result row /\
    (delivers id op = false -> row' = row).
Proof.
  intros Hrow. destruct op as [env rj|q ps|env job]; cbn.
  - apply (POST_keeps_rows env rj) in Hrow.
    destruct (POST env rj w). by eexists.
  - destruct (GET_state q ps w) as (r & w' & -> & Hdb & _). cbn.
    rewrite Hdb. by eexists.
  - destruct (processEmailJob_keeps_result env job w id row Hrow)
      as (row' & Hrow' & Hres & Hsame).
    destruct (processEmailJob env job w). exists row'.
    split; [done|]. split; [done|].
    intros Hne%String.eqb_neq. by apply Hsame.
Qed.

(** C7, as the specification has it, fails: the row of [id1] is
    [completed]; the first statement of another delivery of its message
    sets it to [processing], and when the statement marking it completed
    then fails, the delivery leaves it [failed]. *)
Lemma completed_status_is_overwritten :
  status <$> db world_done !! id1 = Some completed /\
  status <$> db (snd (update_job (qok 120) id1 processing
                        (set_status processing) world_done)) !! id1
    = Some processing /\
  status <$> db (snd (processEmailJob (proc_fail 120) job1 world_done)) !! id1
    = Some failed.
Proof. vm_compute. repeat split; reflexivity. Qed.

(** C7, amended: over any run, the [result] of a job never changes, and
    as long as no message of the job is delivered to the processor its
    whole row, the status with it, stays as it is: requests to the route
    and deliveries for other jobs do not touch it.  A delivery for the job
    itself does overwrite the status, whatever it is. *)
Theorem run_keeps_result ops w id row :
  db w !! id = Some row ->
  exists row',
    db (snd (run ops w)) !! id = Some row' /\
    result row' = result row /\
    (Forall (fun op => delivers id op = false) ops -> row' = row).
Proof.
  revert w row. induction ops as [|op ops IH]; intros w row Hrow.
  { exists row. by cbn. }
  destruct (step_keeps_result op w id row Hrow) as (row1 & Hrow1 & Hres1 & Hsame1).
  cbn. destruct (step op w) as [o w1]. cbn in Hrow1.
  destruct (IH w1 row1 Hrow1) as (row2 & Hrow2 & Hres2 & Hsame2).
  destruct (run ops w1) as [os w2]. cbn in *.
  exists row2. split; [done|]. split; [congruence|].
  intros [Hop Hops]%Forall_cons. rewrite Hsame2, Hsame1; done.
Qed.

Lemma run_keeps_result_witness :
  exists row',
    db (snd (run [OpGet (qok 120) [("status", "completed")];
                  OpPost (post_env id2 130) (Ok (body_of "report"));
                  OpProcess (proc_fail 140) job1] world_done)) !! id1
      = Some row' /\
    result row' = None /\
    (Forall (fun op => delivers id1 op = false)
       [OpGet (qok 120) [("status", "completed")];
        OpPost (post_env id2 130) (Ok (body_of "report"));
        OpProcess (proc_fail 140) job1] ->
     row' = {| job_type := "email"; status := completed;
               job_data := JObj [("to", JStr "a@b.com")];
               result := None; error_message := None;
               created_at := 100; updated_at := 111;
               completed_at := Some 111 |}).
Proof.
  apply (run_keeps_result
           [OpGet (qok 120) [("status", "completed")];
            OpPost (post_env id2 130) (Ok (body_of "report"));
            OpProcess (proc_fail 140) job1] world_done id1
           {| job_type := "email"; status := completed;
              job_data := JObj [("to", JStr "a@b.com")];
              result := None; error_message := None;
              created_at := 100; updated_at := 111;
              completed_at := Some 111 |}).
  vm_compute. reflexivity.
Defined.

(** ** Listing *)

Global Instance newest_first_trans : Transitive newest_first.
Proof. unfold newest_first. intros a b c. lia. Qed.

Global Instance newest_first_total : Total newest_first.
Proof. unfold newest_first. intros a b. lia. Qed.

Section sorted_parts.
Context {A : Type} (R : relation A).

Lemma StronglySorted_drop n l : StronglySorted R l -> StronglySorted R (drop n l).
Proof.
  revert l. induction n as [|n IH]; intros l Hl; [done|].
  destruct Hl as [|x l Hl Hx]; [constructor|]. cbn. by apply IH.
Qed.

Lemma StronglySorted_take n l : StronglySorted R l -> StronglySorted R (take n l).
Proof.
  revert n. induction l as [|x l IH]; intros n Hl.
  { rewrite take_nil. constructor. }
  apply StronglySorted_inv in Hl as [Hl Hx].
  destruct n as [|n]; cbn; constructor; [by apply IH|].
  by apply Forall_take.
Qed.
End sorted_parts.

Global Instance server_order_trans rank : Transitive (server_order rank).
Proof. unfold server_order. intros a b c. lia. Qed.

Global Instance server_order_total rank : Total (server_order rank).
Proof. unfold server_order. intros a b. lia. Qed.

Lemma server_order_newest_first rank a b :
  server_order rank a b -> newest_first a b.
Proof. unfold server_order, newest_first. lia. Qed.

Lemma StronglySorted_weaken {A} (R R' : relation A) l :
  (forall x y, R x y -> R' x y) -> StronglySorted R l -> StronglySorted R' l.
Proof.
  intros HR. induction 1 as [|x l Hl IH Hx]; constructor; [done|].
  eapply Forall_impl; [exact Hx|]. intros y. apply HR.
Qed.

Lemma listing_sorted q st l o w :
  StronglySorted newest_first (listing q st l o w).
Proof.
  apply (StronglySorted_weaken (server_order (q_rank q)));
    [apply server_order_newest_first|].
  apply StronglySorted_take, StronglySorted_drop, StronglySorted_merge_sort;
    apply _.
Qed.

Lemma listing_elem q st l o w id r :
  (id, r) ∈ listing q st l o w -> db w !! id = Some r /\ status_is st (id, r).
Proof.
  intros H%subseteq_take%subseteq_drop.
  rewrite merge_sort_Permutation in H.
  apply list_elem_of_filter in H as [Hst H].
  by apply elem_of_map_to_list in H.
Qed.

Lemma listing_length q st l o w :
  (List.length (listing q st l o w) <= Z.to_nat l)%nat.
Proof. unfold listing. rewrite length_take. lia. Qed.

Lemma select_jobs_listing q st l o w :
  q_fault q = None -> (forall s, st = Some s -> has_nul s = false) ->
  in_range l -> in_range o ->
  select_jobs q st (Int l) (Int o) w =
    (Ok (listing q st l o w), emit (EvSelect true) w).
Proof.
  intros Hq Hnul [Hl0 Hl1] [Ho0 Ho1]. unfold select_jobs. rewrite Hq.
  assert (match st with Some s => has_nul s | None => false end = false) as ->.
  { destruct st as [s|]; [by apply Hnul|done]. }
  apply Z.ltb_ge in Hl0 as ->. apply Z.ltb_ge in Ho0 as ->.
  apply Z.ltb_ge in Hl1 as ->. by apply Z.ltb_ge in Ho1 as ->.
Qed.

(** C8, as the specification has it, fails: a type filter is given, and
    the listing returns the email job with the report job. *)
Lemma listing_ignores_type_filter :
  fst (GET (qok 300) [("type", "report"); ("jobType", "report");
                      ("limit", "10"); ("offset", "0")] world2) =
    Ok {| code := 200;
          body := JobsBody
            [(id2, new_row "report" (JObj [("to", JStr "a@b.com")]) 200);
             (id1, new_row "email" (JObj [("to", JStr "a@b.com")]) 100)]
            2 (Some 10) (Some 0) |}.
Proof. vm_compute. reflexivity. Qed.

(** C8, amended: for every status filter and every limit and offset that
    read as numbers the server takes, from 0 to the largest [bigint], the
    listing returns rows of the table that all have the status asked for,
    at most [limit] of them, newest [created_at] first, and returns the
    limit and the offset as they were read; only the parameters [jobId],
    [status], [limit] and [offset] are read, so a type filter has no
    effect. *)
Theorem GET_lists_by_status_newest_first q ps w l o :
  is_set (assoc "jobId" ps) = false ->
  db_ready w = true -> q_fault q = None ->
  (forall s, assoc "status" ps = Some s -> has_nul s = false) ->
  parseInt (or_string (assoc "limit" ps) "50") = Int l -> in_range l ->
  parseInt (or_string (assoc "offset" ps) "0") = Int o -> in_range o ->
  exists rows,
    fst (GET q ps w) =
      Ok {| code := 200;
            body := JobsBody rows (List.length rows) (Some l) (Some o) |} /\
    (List.length rows <= Z.to_nat l)%nat /\
    (forall id r, (id, r) ∈ rows ->
       db w !! id = Some r /\
       forall s, assoc "status" ps = Some s -> s <> EmptyString ->
         status_name (status r) = s) /\
    StronglySorted newest_first rows /\
    (forall ps',
       (forall k, k ∈ ["jobId"; "status"; "limit"; "offset"] ->
          assoc k ps' = assoc k ps) ->
       GET q ps' w = GET q ps w).
Proof.
  intros Hid Hr Hq Hnul Hl Hl0 Ho Ho0.
  set (st := if is_set (assoc "status" ps) then assoc "status" ps else None).
  exists (listing q st l o w).
  split; [|split; [|split; [|split]]].
  - rewrite GET_eq, Hr, Hid. cbn [negb]. cbv zeta. rewrite Hl, Ho.
    fold st. rewrite select_jobs_listing; [done|done| |done|done].
    intros s Hs. apply Hnul. subst st.
    by destruct (is_set (assoc "status" ps)).
  - apply listing_length.
  - intros id r [Hrow Hst]%listing_elem. split; [done|].
    intros s Hs Hne. subst st. rewrite Hs in Hst. cbn in Hst.
    apply String.eqb_neq in Hne. by rewrite Hne in Hst.
  - apply listing_sorted.
  - intros ps' Hsame. unfold GET.
    rewrite !Hsame; [done|set_solver..].
Qed.

Lemma GET_lists_by_status_newest_first_witness :
  exists rows,
    fst (GET (qok 300) [("status", "pending"); ("limit", "9007199254740993")]
           world2) =
      Ok {| code := 200;
            body := JobsBody rows (List.length rows)
                      (Some 9007199254740992) (Some 0) |} /\
    (List.length rows <= Z.to_nat 9007199254740992)%nat /\
    (forall id r, (id, r) ∈ rows ->
       db world2 !! id = Some r /\
       forall s,
         assoc "status" [("status", "pending"); ("limit", "9007199254740993")]
           = Some s ->
         s <> EmptyString -> status_name (status r) = s) /\
    StronglySorted newest_first rows /\
    (forall ps',
       (forall k, k ∈ ["jobId"; "status"; "limit"; "offset"] ->
          assoc k ps' =
            assoc k [("status", "pending"); ("limit", "9007199254740993")]) ->
       GET (qok 300) ps' world2 =
         GET (qok 300) [("status", "pending"); ("limit", "9007199254740993")]
           world2).
Proof.
  apply (GET_lists_by_status_newest_first (qok 300)
           [("status", "pending"); ("limit", "9007199254740993")] world2
           9007199254740992 0); try reflexivity.
  - intros s [= <-]. reflexivity.
  - unfold in_range, bigint_max. lia.
  - unfold in_range, bigint_max. lia.
Defined.

(** ** Further properties of the publisher *)

(** X1: when the message cannot be queued, [POST] answers 500 but the row
    it wrote stays, [pending], and no message for it exists. *)
Theorem POST_enqueue_failure_keeps_row env rj w jt d msg :
  submission rj = Some (jt, d) -> db_ready w = true ->
  q_fault (insert_env env) = None -> db w !! uuid env = None ->
  add_fault env = Some msg ->
  exists w',
    POST env rj w = (Ok (failure "Failed to create job" msg), w') /\
    db w' !! uuid env =
      Some (new_row jt (or_empty_object d) (q_now (insert_env env))) /\
    redis w' = redis w.
Proof.
  intros Hs Hr Hq Hnew Ha.
  rewrite (POST_accepted _ _ _ _ _ Hs), (getDbClient_ready _ Hr).
  pose proof Hs as (body & _ & _ & _ & Hin)%submission_Some.
  rewrite insert_job_ok by done. rewrite Ha, publishEmailJob_fail.
  eexists. split; [done|]. split; [|done]. cbn. apply lookup_insert_eq.
Qed.

Lemma POST_enqueue_failure_keeps_row_witness :
  exists w',
    POST {| uuid := id1; insert_env := qok 100;
            add_fault := Some "connect ECONNREFUSED";
            date1 := 100; date2 := 100 |} (Ok (body_of "email")) world0 =
      (Ok (failure "Failed to create job" "connect ECONNREFUSED"), w') /\
    db w' !! id1 = Some (new_row "email" (JObj [("to", JStr "a@b.com")]) 100) /\
    redis w' = redis world0.
Proof.
  apply (POST_enqueue_failure_keeps_row
           {| uuid := id1; insert_env := qok 100;
              add_fault := Some "connect ECONNREFUSED";
              date1 := 100; date2 := 100 |}
           (Ok (body_of "email")) world0 "email"
           (Some (JObj [("to", JStr "a@b.com")]))); reflexivity.
Defined.

(** X2: the row and the message of an accepted submission carry the same
    type and the same data: the submitted data when it is truthy, the
    empty object otherwise. *)
Theorem POST_row_and_message_agree env rj w r w' :
  POST env rj w = (Ok r, w') -> code r = 201 ->
  exists jt d row job,
    submission rj = Some (jt, d) /\
    db w' !! uuid env = Some row /\
    new_jobs w w' "email" = [job] /\
    jobId (bj_data job) = uuid env /\
    message_matches job row /\
    job_type row = jt /\
    job_data row = (if truthy d then default JNull d else JObj []).
Proof.
  intros HP Hcode.
  destruct (POST_cases env rj w) as (r' & w'' & HP' & Hc).
  rewrite HP in HP'. injection HP' as <- <-.
  destruct Hc as [r Hr|e|jt d e Hs Hnew|jt d Hs Hnew]; try done.
  exists jt, d. do 2 eexists. split; [done|].
  split; [cbn; apply lookup_insert_eq|]. split.
  { unfold new_jobs, queued. cbn. rewrite lookup_insert_eq. cbn.
    by rewrite drop_app_length. }
  split; [done|]. split; [done|]. split; [done|].
  cbn. destruct d as [j|]; [|done]. cbn. by destruct (truthy (Some j)).
Qed.

Lemma POST_row_and_message_agree_witness :
  exists jt d row job,
    submission (Ok (JObj [("jobType", JStr "report"); ("jobData", JNull)]))
      = Some (jt, d) /\
    db (snd (POST (post_env id1 100)
               (Ok (JObj [("jobType", JStr "report"); ("jobData", JNull)]))
               world0)) !! id1 = Some row /\
    new_jobs world0
      (snd (POST (post_env id1 100)
              (Ok (JObj [("jobType", JStr "report"); ("jobData", JNull)]))
              world0)) "email" = [job] /\
    jobId (bj_data job) = id1 /\
    message_matches job row /\
    job_type row = jt /\
    job_data row = (if truthy d then default JNull d else JObj []).
Proof.
  apply (POST_row_and_message_agree (post_env id1 100)
           (Ok (JObj [("jobType", JStr "report"); ("jobData", JNull)]))
           world0 (created id1)).
  - vm_compute. reflexivity.
  - reflexivity.
Defined.

(** X3: when the identifier drawn for a valid submission already has a
    row, [POST] answers 500, leaves the table and Redis as they were, and
    the existing row is not overwritten. *)
Theorem POST_duplicate_id_refused env rj w jt d row :
  submission rj = Some (jt, d) -> db w !! uuid env = Some row ->
  exists msg w',
    POST env rj w = (Ok (failure "Failed to create job" msg), w') /\
    db w' = db w /\ redis w' = redis w.
Proof.
  intros Hs Hrow. rewrite (POST_accepted _ _ _ _ _ Hs).
  destruct (db_ready w) eqn:Hr.
  2: { rewrite (getDbClient_not_ready _ Hr). by do 2 eexists. }
  rewrite (getDbClient_ready _ Hr).
  destruct (insert_job_fail (insert_env env) (uuid env) jt (or_empty_object d)
              (set_pool true w)) as [e ->].
  { right. right. cbn. by rewrite Hrow. }
  by do 2 eexists.
Qed.

Lemma POST_duplicate_id_refused_witness :
  exists msg w',
    POST (post_env id1 200) (Ok (body_of "report")) (world1 "email") =
      (Ok (failure "Failed to create job" msg), w') /\
    db w' = db (world1 "email") /\ redis w' = redis (world1 "email").
Proof.
  apply (POST_duplicate_id_refused (post_env id1 200) (Ok (body_of "report"))
           (world1 "email") "report" (Some (JObj [("to", JStr "a@b.com")]))
           (new_row "email" (JObj [("to", JStr "a@b.com")]) 100));
    reflexivity.
Defined.

(** X4: neither handler of the route ever throws: [POST] answers 201, 400
    or 500 and [GET] answers 200, 404 or 500, whatever the request and
    whatever fails behind them. *)
Theorem route_always_answers env rj q ps w :
  (exists r w', POST env rj w = (Ok r, w') /\
     (code r = 201 \/ code r = 400 \/ code r = 500)) /\
  (exists r w', GET q ps w = (Ok r, w') /\
     (code r = 200 \/ code r = 404 \/ code r = 500)).
Proof.
  split.
  - destruct (submission rj) as [[jt d]|] eqn:Hs.
    2: { destruct (POST_rejected env rj w Hs) as (r & -> & Hr).
         exists r, w. split; [done|]. tauto. }
    rewrite (POST_accepted _ _ _ _ _ Hs).
    destruct (getDbClient w) as [[u|e] w1]; [|do 2 eexists; split; [done|]; by right; right].
    destruct (insert_job _ _ _ _ _ w1) as [[u2|e] w2];
      [|do 2 eexists; split; [done|]; by right; right].
    destruct (publishEmailJob _ _ _ _ _ w2) as [[n|e] w3];
      do 2 eexists; (split; [done|]); [by left|by right; right].
  - rewrite GET_eq. cbv zeta.
    destruct (negb (db_ready w)); [do 2 eexists; split; [done|]; by right; right|].
    destruct (is_set (assoc "jobId" ps)).
    + destruct (select_job _ _ _) as [[[|job rows]|e] w'];
        do 2 eexists; (split; [done|]); cbn; tauto.
    + destruct (select_jobs _ _ _ _ _) as [[rows|e] w'];
        do 2 eexists; (split; [done|]); cbn; tauto.
Qed.

(** ** Further properties of the listing and the lookup *)

Lemma GET_world q ps w :
  snd (GET q ps w) = w \/
  exists ok, snd (GET q ps w) = emit (EvSelect ok) (set_pool true w).
Proof.
  rewrite GET_eq. cbv zeta.
  destruct (negb (db_ready w)); [by left|]. right.
  destruct (is_set (assoc "jobId" ps)).
  - destruct (select_job_state q (or_string (assoc "jobId" ps) EmptyString)
                (set_pool true w)) as [ok Hw].
    exists ok. by destruct (select_job _ _ _) as [[[|job rows]|e] w'].
  - match goal with |- context [select_jobs ?q ?s ?l ?o ?w] =>
      destruct (select_jobs_state q s l o w) as [ok Hw];
      exists ok; by destruct (select_jobs q s l o w) as [[rows|e] w'] end.
Qed.

(** X5: [GET] only reads: whatever the request and whatever fails, the
    table, the queues in Redis and the cached queue handles are as before,
    and the call sent at most one statement, a [SELECT]. *)
Theorem GET_changes_nothing q ps w :
  db (snd (GET q ps w)) = db w /\
  redis (snd (GET q ps w)) = redis w /\
  queues (snd (GET q ps w)) = queues w /\
  (trace (snd (GET q ps w)) = trace w \/
   exists ok, trace (snd (GET q ps w)) = (trace w ++ [EvSelect ok])%list).
Proof.
  destruct (GET_world q ps w) as [->|[ok ->]]; [by auto|].
  repeat split. right. by exists ok.
Qed.

Lemma given_or_string v d :
  or_string v d = default d (given v).
Proof.
  unfold or_string, given, is_set. destruct v as [s|]; [|done].
  by destruct (String.eqb s EmptyString).
Qed.

(** X6: [GET] takes an empty parameter for a missing one: two query
    strings that give the same [jobId], [status], [limit] and [offset],
    empty values apart, get the same answer. *)
Theorem GET_empty_parameter_is_missing q ps ps' w :
  (forall k, k ∈ ["jobId"; "status"; "limit"; "offset"] ->
     given (assoc k ps') = given (assoc k ps)) ->
  GET q ps' w = GET q ps w.
Proof.
  intros Hsame.
  assert (given (assoc "jobId" ps') = given (assoc "jobId" ps)) as Hj
    by (apply Hsame; set_solver).
  assert (given (assoc "status" ps') = given (assoc "status" ps)) as Hs
    by (apply Hsame; set_solver).
  assert (given (assoc "limit" ps') = given (assoc "limit" ps)) as Hl
    by (apply Hsame; set_solver).
  assert (given (assoc "offset" ps') = given (assoc "offset" ps)) as Ho
    by (apply Hsame; set_solver).
  assert (forall v, is_set v = bool_decide (is_Some (given v))) as Hset.
  { intros v. unfold given. destruct (is_set v) eqn:E.
    - destruct v; [|done]. symmetry. apply bool_decide_eq_true. eauto.
    - symmetry. apply bool_decide_eq_false. by intros [? [=]]. }
  rewrite !GET_eq. cbv zeta.
  rewrite !given_or_string, !(Hset (assoc "jobId" _)).
  fold (given (assoc "status" ps')). fold (given (assoc "status" ps)).
  by rewrite Hj, Hs, Hl, Ho.
Qed.

Lemma GET_empty_parameter_is_missing_witness :
  GET (qok 300) [("jobId", EmptyString); ("status", EmptyString);
                 ("limit", "10"); ("type", "email")] world2 =
  GET (qok 300) [("limit", "10"); ("offset", EmptyString)] world2.
Proof.
  apply GET_empty_parameter_is_missing.
  intros k Hk. set_unfold.
  destruct Hk as [-> | [-> | [-> | [-> | []]]]]; reflexivity.
Defined.

Lemma select_job_canonical q id w :
  q_fault q = None -> canonical_keys w ->
  fst (select_job q id w) =
    match uuid_in id with
    | Some u => Ok match db w !! u with Some r => [(u, r)] | None => [] end
    | None => Throw "invalid input syntax for type uuid"
    end.
Proof.
  intros Hq Hc. unfold select_job. rewrite Hq.
  destruct (db w !! id) as [r|] eqn:Hid.
  - rewrite (Hc id r Hid), Hid. done.
  - by destruct (uuid_in id).
Qed.

(** X7: with a [jobId], on a table whose rows are kept under the canonical
    text of their ids, [GET] answers 500 when the [jobId] is no [UUID] for
    the server, and otherwise 200 with the row of that [UUID], in whatever
    spelling it was asked for, or 404 when there is no such row; the other
    parameters, a malformed [limit] included, change nothing of it. *)
Theorem GET_by_id_found_or_404 q ps w id :
  assoc "jobId" ps = Some id -> id <> EmptyString ->
  canonical_keys w -> db_ready w = true -> q_fault q = None ->
  fst (GET q ps w) =
    Ok match uuid_in id with
       | Some u =>
         match db w !! u with
         | Some row => {| code := 200; body := JobBody (u, row) |}
         | None => {| code := 404; body := ErrorBody "Job not found" |}
         end
       | None =>
         failure "Failed to fetch jobs" "invalid input syntax for type uuid"
       end.
Proof.
  intros Hid Hne Hc Hr Hq. rewrite GET_eq, Hr, Hid. cbn -[select_job].
  apply String.eqb_neq in Hne. rewrite Hne. cbn -[select_job].
  pose proof (select_job_canonical q id (set_pool true w) Hq Hc) as Hsel.
  destruct (select_job q id (set_pool true w)) as [res w']. cbn in Hsel.
  subst res. destruct (uuid_in id) as [u|]; [|done].
  by destruct (db w !! u).
Qed.

Lemma GET_by_id_found_or_404_witness :
  fst (GET (qok 300) [("limit", "-5"); ("jobId", id2)] (world1 "email")) =
    Ok {| code := 404; body := ErrorBody "Job not found" |} /\
  fst (GET (qok 300)
         [("limit", "abc"); ("jobId", "{3B241101E2BB42558CAF4136C566A962}")]
         (world1 "email")) =
    Ok {| code := 200;
          body := JobBody (id1, new_row "email"
                                  (JObj [("to", JStr "a@b.com")]) 100) |} /\
  fst (GET (qok 300) [("jobId", "17")] (world1 "email")) =
    Ok (failure "Failed to fetch jobs" "invalid input syntax for type uuid").
Proof.
  assert (canonical_keys (world1 "email")) as Hc.
  { apply (bool_decide_unpack _). vm_compute. exact I. }
  split; [|split].
  - apply (GET_by_id_found_or_404 (qok 300) [("limit", "-5"); ("jobId", id2)]
             (world1 "email") id2); try reflexivity; [discriminate|exact Hc].
  - apply (GET_by_id_found_or_404 (qok 300)
             [("limit", "abc");
              ("jobId", "{3B241101E2BB42558CAF4136C566A962}")]
             (world1 "email") "{3B241101E2BB42558CAF4136C566A962}");
      try reflexivity; [discriminate|exact Hc].
  - apply (GET_by_id_found_or_404 (qok 300) [("jobId", "17")]
             (world1 "email") "17"); try reflexivity; [discriminate|exact Hc].
Defined.

Lemma given_None v : given v = None -> is_set v = false.
Proof.
  unfold given. destruct v as [s|]; [|done]. cbn.
  by destruct (String.eqb s EmptyString).
Qed.

(** X8: without a [jobId], a [limit] or an [offset] that reads as no
    number, as an infinity, as a negative number or as a number beyond the
    largest [bigint] makes [GET] answer 500, and no rows. *)
Theorem GET_bad_page_is_500 q ps w :
  given (assoc "jobId" ps) = None ->
  match parseInt (or_string (assoc "limit" ps) "50"),
        parseInt (or_string (assoc "offset" ps) "0") with
  | Int l, Int o => ~ in_range l \/ ~ in_range o
  | _, _ => True
  end ->
  exists msg, fst (GET q ps w) = Ok (failure "Failed to fetch jobs" msg).
Proof.
  intros Hid Hbad. rewrite GET_eq. cbv zeta.
  destruct (negb (db_ready w)); [by eexists|].
  rewrite (given_None _ Hid).
  unfold select_jobs. destruct (q_fault q); [by eexists|].
  destruct (match given (assoc "status" ps) with
            | Some s => has_nul s | None => false end) eqn:Hn;
    unfold given in Hn; rewrite Hn; [by eexists|].
  destruct (parseInt _) as [| |l]; [by eexists..|].
  destruct (parseInt _) as [| |o]; [by eexists..|].
  destruct (Z.ltb_spec l 0); [by eexists|].
  destruct (Z.ltb_spec o 0); [by eexists|].
  destruct (Z.ltb_spec bigint_max l); [by eexists|].
  destruct (Z.ltb_spec bigint_max o); [by eexists|].
  unfold in_range in Hbad. lia.
Qed.

Lemma GET_bad_page_is_500_witness :
  (exists msg,
     fst (GET (qok 300) [("limit", "ten")] world2) =
       Ok (failure "Failed to fetch jobs" msg)) /\
  (exists msg,
     fst (GET (qok 300) [("limit", "99999999999999999999")] world2) =
       Ok (failure "Failed to fetch jobs" msg)) /\
  (exists msg,
     fst (GET (qok 300) [("offset", "-1")] world2) =
       Ok (failure "Failed to fetch jobs" msg)).
Proof.
  split; [|split].
  - apply (GET_bad_page_is_500 (qok 300) [("limit", "ten")] world2).
    + reflexivity.
    + exact I.
  - apply (GET_bad_page_is_500 (qok 300) [("limit", "99999999999999999999")]
             world2).
    + reflexivity.
    + vm_compute. left. intros [_ H]. by apply H.
  - apply (GET_bad_page_is_500 (qok 300) [("offset", "-1")] world2).
    + reflexivity.
    + vm_compute. right. intros [H _]. by apply H.
Defined.

Lemma GET_listing q ps w st l o :
  asks ps st l o -> in_range l -> in_range o ->
  db_ready w = true -> q_fault q = None ->
  fst (GET q ps w) = Ok (page (listing q st l o w) l o).
Proof.
  intros (Hid & Hst & Hnul & Hl & Ho) Hl0 Ho0 Hr Hq.
  rewrite GET_eq, Hr, (given_None _ Hid). cbn [negb]. cbv zeta.
  rewrite Hl, Ho. fold (given (assoc "status" ps)). rewrite Hst.
  by rewrite select_jobs_listing.
Qed.

(** X9: a listing asked without [limit] and [offset], or with empty ones,
    is the first page of 50: the first 50 rows, or all if there are fewer,
    of the rows that have the status asked for, in the order the server
    gives them, newest [created_at] first.  Only a status filter with the
    character U+0000, which the server refuses, gets 500 instead. *)
Theorem GET_default_page q ps w :
  given (assoc "jobId" ps) = None ->
  given (assoc "limit" ps) = None -> given (assoc "offset" ps) = None ->
  db_ready w = true -> q_fault q = None ->
  exists rows,
    fst (GET q ps w) =
      Ok (if refused_status (given (assoc "status" ps))
          then failure "Failed to fetch jobs"
                 "invalid byte sequence for encoding UTF8: 0x00"
          else page rows 50 0) /\
    (List.length rows <= 50)%nat /\
    StronglySorted newest_first rows /\
    rows = take 50 (merge_sort (server_order (q_rank q))
                      (filter (status_is (given (assoc "status" ps)))
                         (map_to_list (db w)))).
Proof.
  intros Hid Hl Ho Hr Hq.
  exists (listing q (given (assoc "status" ps)) 50 0 w).
  split; [|split; [|split]].
  - destruct (refused_status (given (assoc "status" ps))) eqn:Hnul.
    + rewrite GET_eq, Hr, (given_None _ Hid). cbn [negb]. cbv zeta.
      fold (given (assoc "status" ps)).
      unfold select_jobs. rewrite Hq. unfold refused_status in Hnul.
      by rewrite Hnul.
    + apply GET_listing; try done; [|by unfold in_range, bigint_max..].
      split; [done|]. split; [done|]. split.
      * intros s Hs. by rewrite Hs in Hnul.
      * by rewrite !given_or_string, Hl, Ho.
  - apply (listing_length _ _ 50).
  - apply listing_sorted.
  - done.
Qed.

Lemma GET_default_page_witness :
  exists rows,
    fst (GET (qok 300) [("status", "pending"); ("limit", EmptyString)] world2)
      = Ok (page rows 50 0) /\
    (List.length rows <= 50)%nat /\
    StronglySorted newest_first rows /\
    rows = take 50 (merge_sort (server_order (q_rank (qok 300)))
                      (filter (status_is (Some "pending"))
                         (map_to_list (db world2)))).
Proof.
  apply (GET_default_page (qok 300)
           [("status", "pending"); ("limit", EmptyString)] world2);
    reflexivity.
Defined.

Lemma listing_order_unique q q' st w :
  distinct_created_at w ->
  merge_sort (server_order (q_rank q))
    (filter (status_is st) (map_to_list (db w))) =
  merge_sort (server_order (q_rank q'))
    (filter (status_is st) (map_to_list (db w))).
Proof.
  intros Hd.
  apply (StronglySorted_unique_strong newest_first).
  - intros [id r] [id' r']. rewrite !merge_sort_Permutation.
    intros [_ H1%elem_of_map_to_list]%list_elem_of_filter
           [_ H2%elem_of_map_to_list]%list_elem_of_filter Hle Hge.
    unfold newest_first in *. cbn in *.
    assert (id = id') as <- by (apply (Hd id id' r r'); [done..|lia]).
    congruence.
  - apply (StronglySorted_weaken (server_order (q_rank q)));
      [apply server_order_newest_first|].
    apply StronglySorted_merge_sort; apply _.
  - apply (StronglySorted_weaken (server_order (q_rank q')));
      [apply server_order_newest_first|].
    apply StronglySorted_merge_sort; apply _.
  - by rewrite !merge_sort_Permutation.
Qed.

(** X10: on a table in which no two rows have the same [created_at],
    pages follow one another without a gap and without a repeat, however
    the server answers each query: the page of [l1] rows at offset [o]
    followed by the page of [l2] rows at offset [o + l1] is the page of
    [l1 + l2] rows at offset [o]. *)
Theorem GET_pages_concatenate q1 q2 q3 ps1 ps2 ps3 w st l1 l2 o :
  asks ps1 st l1 o -> asks ps2 st l2 (o + l1) -> asks ps3 st (l1 + l2) o ->
  in_range l1 -> in_range l2 -> in_range o ->
  in_range (o + l1) -> in_range (l1 + l2) ->
  distinct_created_at w ->
  db_ready w = true ->
  q_fault q1 = None -> q_fault q2 = None -> q_fault q3 = None ->
  exists rows1 rows2,
    fst (GET q1 ps1 w) = Ok (page rows1 l1 o) /\
    fst (GET q2 ps2 w) = Ok (page rows2 l2 (o + l1)) /\
    fst (GET q3 ps3 w) = Ok (page (rows1 ++ rows2) (l1 + l2) o).
Proof.
  intros H1 H2 H3 Hl1 Hl2 Ho Hol Hll Hd Hr Hq1 Hq2 Hq3.
  exists (listing q1 st l1 o w), (listing q2 st l2 (o + l1) w).
  split; [by apply GET_listing|]. split; [by apply GET_listing|].
  rewrite (GET_listing q3 ps3 w st (l1 + l2) o) by done.
  do 2 f_equal. unfold listing.
  rewrite (listing_order_unique q2 q1 st w Hd).
  rewrite (listing_order_unique q3 q1 st w Hd).
  destruct Hl1, Hl2, Ho.
  rewrite !Z2Nat.inj_add by lia.
  rewrite <- drop_drop. symmetry. apply take_take_drop.
Qed.

Lemma GET_pages_concatenate_witness :
  exists rows1 rows2,
    fst (GET (qok 300) [("limit", "1")] world2) = Ok (page rows1 1 0) /\
    fst (GET {| q_now := 301; q_fault := None;
                q_rank := fun id => if String.eqb id id1 then 0 else 1 |}
           [("limit", "1"); ("offset", "1")] world2)
      = Ok (page rows2 1 (0 + 1)) /\
    fst (GET {| q_now := 302; q_fault := None;
                q_rank := fun id => if String.eqb id id1 then 1 else 0 |}
           [("limit", "2")] world2)
      = Ok (page (rows1 ++ rows2) (1 + 1) 0).
Proof.
  apply (GET_pages_concatenate (qok 300) _ _ [("limit", "1")]
           [("limit", "1"); ("offset", "1")] [("limit", "2")] world2 None);
    try reflexivity; try (unfold in_range, bigint_max; lia);
    try (repeat split; done).
  intros id id' r r' H1 H2.
  assert (forall k x, db world2 !! k = Some x ->
            (k = id1 /\ created_at x = 100) \/ (k = id2 /\ created_at x = 200))
    as Hrows.
  { intros k x Hk.
    assert (db world2 =
              <[id2 := new_row "report" (JObj [("to", JStr "a@b.com")]) 200]>
                (<[id1 := new_row "email" (JObj [("to", JStr "a@b.com")]) 100]>
                   ∅)) as Hdb by (vm_compute; reflexivity).
    rewrite Hdb in Hk.
    apply lookup_insert_Some in Hk as [[<- <-]|[_ Hk]]; [by right|].
    apply lookup_insert_Some in Hk as [[<- <-]|[_ Hk]]; [by left|].
    by rewrite lookup_empty in Hk. }
  destruct (Hrows id r H1) as [[-> ->]|[-> ->]],
           (Hrows id' r' H2) as [[-> ->]|[-> ->]]; done.
Defined.

(** X11: a first page large enough for the whole table returns every job
    that has the status asked for, each once. *)
Theorem GET_large_page_is_complete q ps w st l :
  asks ps st l 0 -> (Z.of_nat (size (db w)) <= l)%Z -> in_range l ->
  db_ready w = true -> q_fault q = None ->
  exists rows,
    fst (GET q ps w) = Ok (page rows l 0) /\
    NoDup rows /\
    forall id r,
      (id, r) ∈ rows <-> db w !! id = Some r /\ status_is st (id, r).
Proof.
  intros Hask Hsize Hl Hr Hq. exists (listing q st l 0 w).
  split; [apply GET_listing; try done; by unfold in_range, bigint_max|].
  assert (listing q st l 0 w ≡ₚ filter (status_is st) (map_to_list (db w)))
    as HP.
  { unfold listing. cbn [Z.to_nat drop]. rewrite take_ge.
    - apply merge_sort_Permutation.
    - rewrite merge_sort_Permutation.
      etrans; [apply length_filter|]. rewrite length_map_to_list. lia. }
  split.
  - rewrite HP. apply NoDup_filter, NoDup_map_to_list.
  - intros id r. rewrite HP, list_elem_of_filter, elem_of_map_to_list. tauto.
Qed.

Lemma GET_large_page_is_complete_witness :
  exists rows,
    fst (GET (qok 300) [("status", "pending")] world2) = Ok (page rows 50 0) /\
    NoDup rows /\
    forall id r,
      (id, r) ∈ rows <->
      db world2 !! id = Some r /\ status_is (Some "pending") (id, r).
Proof.
  apply (GET_large_page_is_complete (qok 300) [("status", "pending")] world2);
    try reflexivity.
  - repeat split. by intros s [= <-].
  - vm_compute. discriminate.
  - unfold in_range, bigint_max. lia.
Defined.

(** X12: a status filter that is none of the four statuses is no error as
    long as it is a text the server takes: the listing is empty.  A filter
    with the character U+0000 is refused, and [GET] answers 500. *)
Theorem GET_unknown_status_lists_nothing q ps w s l o :
  given (assoc "jobId" ps) = None ->
  given (assoc "status" ps) = Some s ->
  s ∉ ["pending"; "processing"; "completed"; "failed"] ->
  parseInt (or_string (assoc "limit" ps) "50") = Int l -> in_range l ->
  parseInt (or_string (assoc "offset" ps) "0") = Int o -> in_range o ->
  db_ready w = true -> q_fault q = None ->
  fst (GET q ps w) =
    Ok (if has_nul s
        then failure "Failed to fetch jobs"
               "invalid byte sequence for encoding UTF8: 0x00"
        else page [] l o).
Proof.
  intros Hid Hst Hs Hl Hl0 Ho Ho0 Hr Hq.
  destruct (has_nul s) eqn:Hnul.
  - rewrite GET_eq, Hr, (given_None _ Hid). cbn [negb]. cbv zeta.
    fold (given (assoc "status" ps)). rewrite Hst.
    unfold select_jobs. by rewrite Hq, Hnul.
  - rewrite (GET_listing q ps w (Some s) l o); try done.
    2: { repeat split; try done. by intros ? [= <-]. }
    destruct (listing q (Some s) l o w) as [|[id r] rows] eqn:E; [done|].
    assert ((id, r) ∈ listing q (Some s) l o w) as [_ Hin]%listing_elem
      by (rewrite E; apply list_elem_of_here).
    cbn in Hin. exfalso. apply Hs. rewrite <- Hin.
    destruct (status r); set_solver.
Qed.

Lemma GET_unknown_status_lists_nothing_witness :
  fst (GET (qok 300) [("status", "done")] world2) = Ok (page [] 50 0) /\
  fst (GET (qok 300) [("status", String (ascii_of_nat 0) EmptyString)] world2)
    = Ok (failure "Failed to fetch jobs"
            "invalid byte sequence for encoding UTF8: 0x00").
Proof.
  split.
  - apply (GET_unknown_status_lists_nothing (qok 300) [("status", "done")]
             world2 "done" 50 0); try reflexivity;
      try (unfold in_range, bigint_max; lia).
    set_unfold. intros [?|[?|[?|[?|[]]]]]; discriminate.
  - apply (GET_unknown_status_lists_nothing (qok 300)
             [("status", String (ascii_of_nat 0) EmptyString)]
             world2 (String (ascii_of_nat 0) EmptyString) 50 0);
      try reflexivity; try (unfold in_range, bigint_max; lia).
    set_unfold. intros [?|[?|[?|[?|[]]]]]; discriminate.
Defined.

(** ** The queues *)

Lemma publishJob_ok q data options w :
  let jobs := default [] (redis w !! q) in
  publishJob None q data options w =
    (Ok (S (List.length jobs)),
     emit (EvAdd q (jobId data) true)
       (set_redis
          (<[q := (jobs ++ [published_job (S (List.length jobs)) q data
                              options])%list]> (redis w))
          (set_queues ({[q]} ∪ queues w) w))).
Proof.
  unfold publishJob, getQueue, queue_add, bind, gets, update, ret.
  case_bool_decide as Hq; cbn; [|done].
  by rewrite (set_queues_known _ _ Hq).
Qed.

Lemma attempts_or_3_nonzero options : attempts_or_3 options <> 0.
Proof.
  unfold attempts_or_3. destruct options as [[? [k|] ?]|]; try done.
  cbn. destruct (Z.eqb_spec k 0); done.
Qed.

(** X13: [publishJob], when the queue takes the job, appends it behind the
    jobs that are in the queue, under the name of the queue and with the
    data given.  Its attempts are the ones asked for, and 3 when no options
    are given, when they name no attempts or when they name 0; its backoff
    is the one asked for, and exponential from 2000 ms when none is; its
    delay is the one asked for, if any.  Other queues and the table are as
    before, and the handle of the queue is cached. *)
Theorem publishJob_appends q data options w :
  exists n job,
    fst (publishJob None q data options w) = Ok n /\
    redis (snd (publishJob None q data options w)) !! q
      = Some (default [] (redis w !! q) ++ [job])%list /\
    bj_data job = data /\ bj_name job = q /\
    attempts (bj_opts job) =
      match options ≫= po_attempts with
      | Some k => if decide (k = 0) then 3 else k
      | None => 3
      end /\
    backoff (bj_opts job) =
      default {| bo_type := exponential; bo_delay := 2000 |}
        (options ≫= po_backoff) /\
    delay (bj_opts job) = options ≫= po_delay /\
    (forall q', q' <> q ->
       redis (snd (publishJob None q data options w)) !! q' = redis w !! q') /\
    db (snd (publishJob None q data options w)) = db w /\
    q ∈ queues (snd (publishJob None q data options w)).
Proof.
  rewrite publishJob_ok. cbv zeta. do 2 eexists. split; [done|].
  cbn. rewrite lookup_insert_eq.
  split; [done|]. split; [done|]. split; [done|].
  split; [|split; [|split; [|split; [|split; [done|]]]]].
  - unfold attempts_or_3. destruct options as [[? [k|] ?]|]; cbn; try done.
    case_decide as Hk; [by subst|]. by apply Z.eqb_neq in Hk as ->.
  - unfold backoff_or_default. by destruct options as [[? ? [b|]]|].
  - by destruct options.
  - intros q' Hq'. by rewrite lookup_insert_ne.
  - set_solver.
Qed.

(** X14: when the queue refuses the job, [publishJob] throws the error of
    [queue.add]: nothing is queued and the table is as before, but the
    handle of the queue, made before the job is added, stays cached. *)
Theorem publishJob_failure_queues_nothing msg q data options w :
  fst (publishJob (Some msg) q data options w) = Throw msg /\
  redis (snd (publishJob (Some msg) q data options w)) = redis w /\
  db (snd (publishJob (Some msg) q data options w)) = db w /\
  queues (snd (publishJob (Some msg) q data options w)) = {[q]} ∪ queues w.
Proof.
  unfold publishJob, getQueue, queue_add, bind, gets, update, ret.
  case_bool_decide as Hq; cbn; repeat split; try done.
  apply singleton_subseteq_l, subseteq_union_1_L in Hq. by rewrite Hq.
Qed.

Lemma closeQueues_eq fault w :
  closeQueues fault w =
    match fault with
    | Some msg =>
      if bool_decide (queues w = ∅) then (Ok tt, set_queues ∅ w)
      else (Throw msg, w)
    | None => (Ok tt, set_queues ∅ w)
    end.
Proof.
  unfold closeQueues, bind, gets, update, throw.
  destruct fault; by case_bool_decide.
Qed.

(** X15: [closeQueues] forgets the handles and nothing else: the jobs
    stay in their queues and the table is as before; a queue that fails to
    close stops it before the cache is cleared; and a job published after
    it goes behind the jobs that were queued before. *)
Theorem closeQueues_keeps_jobs fault q data options w :
  redis (snd (closeQueues fault w)) = redis w /\
  db (snd (closeQueues fault w)) = db w /\
  (fault = None \/ queues w = ∅ ->
     fst (closeQueues fault w) = Ok tt /\
     queues (snd (closeQueues fault w)) = ∅ /\
     exists job,
       redis (snd (publishJob None q data options (snd (closeQueues fault w))))
         !! q = Some (default [] (redis w !! q) ++ [job])%list) /\
  (forall msg, fault = Some msg -> queues w <> ∅ ->
     fst (closeQueues fault w) = Throw msg /\
     queues (snd (closeQueues fault w)) = queues w).
Proof.
  rewrite closeQueues_eq.
  assert (redis (snd (publishJob None q data options (set_queues ∅ w))) !! q
          = Some (default [] (redis w !! q) ++
                  [published_job (S (List.length (default [] (redis w !! q))))
                     q data options])%list) as Hpub.
  { rewrite publishJob_ok. cbv zeta. cbn. by rewrite lookup_insert_eq. }
  destruct fault as [msg|]; [case_bool_decide as He|]; cbn [fst snd].
  - split; [done|]. split; [done|]. split; [by eauto|]. by intros.
  - split; [done|]. split; [done|]. split; [by intros [?|?]|].
    by intros ? [= ->] _.
  - split; [done|]. split; [done|]. split; [by eauto|]. by intros.
Qed.

(** ** The database client *)

Lemma closeDbConnection_eq fault w :
  closeDbConnection fault w =
    if pool w then
      match fault with
      | Some msg => (Throw msg, w)
      | None => (Ok tt, set_pool false w)
      end
    else (Ok tt, w).
Proof.
  unfold closeDbConnection, bind, gets, update, throw, ret.
  destruct (pool w); [|done]. by destruct fault.
Qed.

(** X16: [closeDbConnection] gives up the pool and touches nothing else;
    without a pool it does nothing, and [pool.end()] is not even called;
    when [pool.end()] fails the pool is kept.  After it, [getDbClient]
    makes the pool again from [DATABASE_URL], and throws when that is not
    set. *)
Theorem closeDbConnection_then_getDbClient fault w :
  db (snd (closeDbConnection fault w)) = db w /\
  redis (snd (closeDbConnection fault w)) = redis w /\
  (pool w = false -> closeDbConnection fault w = (Ok tt, w)) /\
  (forall msg, pool w = true -> fault = Some msg ->
     closeDbConnection fault w = (Throw msg, w)) /\
  (pool w = true -> fault = None ->
     fst (closeDbConnection fault w) = Ok tt /\
     pool (snd (closeDbConnection fault w)) = false /\
     fst (getDbClient (snd (closeDbConnection fault w))) =
       if is_set (DATABASE_URL w) then Ok tt
       else Throw "DATABASE_URL environment variable is not set").
Proof.
  rewrite closeDbConnection_eq.
  destruct (pool w) eqn:Hp; [destruct fault as [msg|]|]; cbn [fst snd].
  - split; [done|]. split; [done|]. split; [done|].
    split; [by intros ? _ [= ->]|done].
  - split; [done|]. split; [done|]. split; [done|]. split; [done|].
    intros _ _. split; [done|]. split; [done|].
    destruct (is_set (DATABASE_URL w)) eqn:Hu.
    + by rewrite getDbClient_ready.
    + by rewrite getDbClient_not_ready.
  - by repeat split.
Qed.

Lemma step_keeps_ready op w :
  db_ready w = true -> db_ready (snd (step op w)) = true.
Proof.
  intros Hr. destruct op as [env rj|q ps|env job]; cbn.
  - destruct (POST_cases env rj w) as (r & w' & -> & Hc). cbn [snd].
    by destruct Hc.
  - pose proof (GET_world q ps w) as Hw.
    destruct (GET q ps w) as [r w']. cbn in *.
    by destruct Hw as [->|[ok ->]].
  - pose proof (processEmailJob_eq env job w) as Heq.
    destruct (processEmailJob env job w) as [r w']. cbn [snd].
    cbv zeta in Heq. rewrite Hr in Heq. cbn [negb] in Heq.
    destruct (q_fault (q1 env)); [by injection Heq as _ ->|].
    destruct (q_fault (q2 env)); [destruct (q_fault (q3 env))|];
      by injection Heq as _ ->.
Qed.

Lemma run_keeps_ready ops w :
  db_ready w = true -> db_ready (snd (run ops w)) = true.
Proof.
  revert w. induction ops as [|op ops IH]; intros w Hr; [done|].
  cbn. apply (step_keeps_ready op) in Hr.
  destruct (step op w) as [o w1]. specialize (IH w1 Hr).
  by destruct (run ops w1).
Qed.

(** X17: the worker service exits with 1 at its start exactly when it has
    no pool and [DATABASE_URL] is not set; when it starts, the table and
    Redis are untouched, and after any number of requests and deliveries
    the database client is still at hand. *)
Theorem worker_start_makes_client w :
  (fst (worker_start w) = Some 1 <-> db_ready w = false) /\
  db (snd (worker_start w)) = db w /\
  redis (snd (worker_start w)) = redis w /\
  (fst (worker_start w) = None ->
   forall ops,
     fst (getDbClient (snd (run ops (snd (worker_start w))))) = Ok tt).
Proof.
  unfold worker_start. destruct (db_ready w) eqn:Hr.
  - rewrite (getDbClient_ready _ Hr). cbn [fst snd].
    split; [done|]. split; [done|]. split; [done|].
    intros _ ops. rewrite getDbClient_ready; [done|].
    by apply run_keeps_ready.
  - rewrite (getDbClient_not_ready _ Hr). cbn [fst snd]. by repeat split.
Qed.

Lemma string_includes_eq sub s :
  string_includes sub s =
    String.prefix sub s ||
    match s with
    | String _ s' => string_includes sub s'
    | EmptyString => false
    end.
Proof. by destruct s. Qed.

Lemma prefix_app sub b : String.prefix sub (sub ++ b) = true.
Proof.
  induction sub as [|c sub IHs]; [by destruct b|].
  change (String c sub ++ b) with (String c (sub ++ b)).
  cbn [String.prefix]. destruct (Ascii.ascii_dec c c); [exact IHs|congruence].
Qed.

Lemma string_includes_app sub a b : string_includes sub (a ++ sub ++ b) = true.
Proof.
  induction a as [|c a IH].
  - change (EmptyString ++ sub ++ b) with (sub ++ b).
    by rewrite string_includes_eq, prefix_app.
  - change (String c a ++ sub ++ b) with (String c (a ++ sub ++ b)).
    rewrite string_includes_eq, IH. apply orb_true_r.
Qed.

(** X18: the client of the web application asks for SSL whenever
    [DATABASE_SSL] is [true] or [1]; without that, a connection string that
    names [localhost], [127.0.0.1] or [postgres:5432] gets no SSL, in
    production too, where the client of the shared package would ask for
    it; with neither, both clients decide alike.  SSL, when on, never
    verifies the certificate. *)
Theorem sslConfig_choice vars cs :
  (DATABASE_SSL vars = Some "true" \/ DATABASE_SSL vars = Some "1" ->
     sslConfig vars cs = Some {| rejectUnauthorized := false |}) /\
  (DATABASE_SSL vars <> Some "true" -> DATABASE_SSL vars <> Some "1" ->
     (forall a b loc,
        loc ∈ ["localhost"; "127.0.0.1"; "postgres:5432"] ->
        cs = a ++ loc ++ b -> sslConfig vars cs = None) /\
     (string_includes "localhost" cs = false ->
      string_includes "127.0.0.1" cs = false ->
      string_includes "postgres:5432" cs = false ->
      sslConfig vars cs = sslConfig_shared vars)) /\
  (forall o, sslConfig vars cs = Some o \/ sslConfig_shared vars = Some o ->
     rejectUnauthorized o = false).
Proof.
  unfold sslConfig, sslConfig_shared. split; [|split].
  - intros [H|H]; rewrite H; cbn; [done|].
    by case_bool_decide.
  - intros H1 H2.
    rewrite (bool_decide_eq_false_2 _ H1), (bool_decide_eq_false_2 _ H2).
    cbn [orb]. split.
    + intros a b loc Hloc ->. set_unfold.
      destruct Hloc as [-> | [-> | [-> | []]]];
        rewrite string_includes_app; by rewrite ?orb_true_r.
    + by intros -> -> ->.
  - intros o [H|H]; repeat case_match; by simplify_eq.
Qed.

(** ** Further properties of the processor *)

Lemma delivery_sends_once env job w :
  db_ready w = true -> q_fault (q1 env) = None ->
  sends (jobId (bj_data job)) (trace (snd (processEmailJob env job w))) =
    S (sends (jobId (bj_data job)) (trace w)).
Proof.
  intros Hr H1.
  destruct (processEmailJob_trace env job w Hr H1)
    as (st & ok & rest & -> & Hrest & _).
  rewrite !sends_app, Hrest.
  match goal with |- context [sends ?i [_; EvSend ?i ?d; _]] =>
    change (sends i [EvUpdate i processing true; EvSend i d; EvUpdate i st ok])
      with (sends i [EvSend i d]) end.
  rewrite sends_send. lia.
Qed.

(** X19: a delivery for a job that has no row is no error: the updates
    match nothing, the handler is executed, the processor returns
    normally and the table is as before; no row is made for the job. *)
Theorem processEmailJob_without_row env job w :
  db w !! jobId (bj_data job) = None ->
  db_ready w = true -> q_fault (q1 env) = None -> q_fault (q2 env) = None ->
  fst (processEmailJob env job w) = Ok tt /\
  db (snd (processEmailJob env job w)) = db w /\
  sends (jobId (bj_data job)) (trace (snd (processEmailJob env job w))) =
    S (sends (jobId (bj_data job)) (trace w)).
Proof.
  intros Hnone Hr H1 H2.
  split; [|split; [|by apply delivery_sends_once]];
    rewrite processEmailJob_eq; cbv zeta; rewrite Hr, H1, H2; [done|].
  cbn. apply map_eq. intros id. rewrite !lookup_alter.
  rewrite Hnone. repeat case_decide; subst; rewrite ?Hnone; done.
Qed.

Lemma processEmailJob_without_row_witness :
  fst (processEmailJob (proc_ok 110) job1 world0) = Ok tt /\
  db (snd (processEmailJob (proc_ok 110) job1 world0)) = db world0 /\
  sends id1 (trace (snd (processEmailJob (proc_ok 110) job1 world0))) =
    S (sends id1 (trace world0)).
Proof.
  apply (processEmailJob_without_row (proc_ok 110) job1 world0); reflexivity.
Defined.

(** X20: the processor returns normally exactly when the database client
    is at hand and both the update to [processing] and the update to
    [completed] succeed.  When the update to [completed] fails, the
    processor throws that error again if it could record it, and the error
    of the recording if that failed too. *)
Theorem processEmailJob_outcome env job w :
  (fst (processEmailJob env job w) = Ok tt <->
   db_ready w = true /\ q_fault (q1 env) = None /\ q_fault (q2 env) = None) /\
  (forall e, db_ready w = true -> q_fault (q1 env) = None ->
     q_fault (q2 env) = Some e ->
     fst (processEmailJob env job w) = Throw (default e (q_fault (q3 env)))).
Proof.
  rewrite processEmailJob_eq. cbv zeta. split.
  - destruct (db_ready w); cbn [negb]; [|by split; [|intros (? & _)]].
    destruct (q_fault (q1 env)); [by split; [|intros (_ & ? & _)]|].
    destruct (q_fault (q2 env)); [|done].
    destruct (q_fault (q3 env)); by split; [|intros (_ & _ & ?)].
  - intros e -> -> ->. cbn [negb]. by destruct (q_fault (q3 env)).
Qed.

(** X21: the message of an earlier failure is not cleared: a delivery that
    completes a job whose row carries an error message leaves the row
    [completed] with that message still on it. *)
Theorem completed_job_keeps_error_message env job w row e :
  db w !! jobId (bj_data job) = Some row -> error_message row = Some e ->
  db_ready w = true -> q_fault (q1 env) = None -> q_fault (q2 env) = None ->
  exists row',
    db (snd (processEmailJob env job w)) !! jobId (bj_data job) = Some row' /\
    status row' = completed /\ error_message row' = Some e.
Proof.
  intros Hrow He Hr H1 H2.
  rewrite (processEmailJob_row _ _ _ _ Hr H1 Hrow). cbv zeta. rewrite H2.
  by eexists.
Qed.

Lemma completed_job_keeps_error_message_witness :
  exists row',
    db (snd (processEmailJob (proc_ok 130) job1
               (snd (processEmailJob (proc_fail 120) job1 (world1 "email")))))
      !! id1 = Some row' /\
    status row' = completed /\
    error_message row' = Some "Connection terminated unexpectedly".
Proof.
  apply (completed_job_keeps_error_message (proc_ok 130) job1
           (snd (processEmailJob (proc_fail 120) job1 (world1 "email")))
           {| job_type := "email"; status := failed;
              job_data := JObj [("to", JStr "a@b.com")];
              result := None;
              error_message := Some "Connection terminated unexpectedly";
              created_at := 100; updated_at := 122;
              completed_at := None |}); reflexivity.
Defined.

(** X22: the processor writes to the row of its job only: it adds no row
    and removes none, leaves every other row as it is, and leaves Redis
    and the queue handles alone, whatever fails. *)
Theorem processEmailJob_touches_own_row_only env job w :
  let w' := snd (processEmailJob env job w) in
  (forall id, is_Some (db w' !! id) <-> is_Some (db w !! id)) /\
  (forall id, id <> jobId (bj_data job) -> db w' !! id = db w !! id) /\
  redis w' = redis w /\ queues w' = queues w.
Proof.
  cbv zeta. split; [intros id; apply processEmailJob_dom|].
  rewrite processEmailJob_eq. cbv zeta.
  destruct (negb (db_ready w)); [done|].
  destruct (q_fault (q1 env)); [done|].
  destruct (q_fault (q2 env)); [destruct (q_fault (q3 env))|]; cbn;
    (split; [intros id Hid; by rewrite ?lookup_alter_ne|done]).
Qed.

(** ** Invariants of runs *)

Lemma keeps_id : keeps (fun r => r).
Proof. by intros r. Qed.

Lemma keeps_compose f g : keeps f -> keeps g -> keeps (fun r => g (f r)).
Proof.
  intros Hf Hg r. destruct (Hf r) as (? & ? & ? & ? & ?).
  destruct (Hg (f r)) as (? & ? & ? & ? & ?).
  do 4 (split; [congruence|]). auto.
Qed.

Lemma keeps_processing q : keeps (updated q (set_status processing)).
Proof.
  intros r. do 4 (split; [done|]). intros (? & ? & ? & ? & ?).
  by repeat split.
Qed.

Lemma keeps_completed q : keeps (updated q (set_status_completed_at completed)).
Proof.
  intros r. do 4 (split; [done|]). intros (? & ? & ? & ? & ?).
  repeat split; try done; cbn; eauto.
Qed.

Lemma keeps_failed q e : keeps (updated q (set_status_error_message failed e)).
Proof.
  intros r. do 4 (split; [done|]). intros (? & ? & ? & ? & ?).
  repeat split; try done; cbn; eauto.
Qed.

Lemma processEmailJob_rows env job w :
  exists f, keeps f /\
    forall id,
      db (snd (processEmailJob env job w)) !! id =
        if decide (jobId (bj_data job) = id) then f <$> db w !! id
        else db w !! id.
Proof.
  rewrite processEmailJob_eq. cbv zeta.
  assert (forall id, db w !! id =
            if decide (jobId (bj_data job) = id)
            then (fun r => r) <$> db w !! id else db w !! id) as Hid.
  { intros id. case_decide; [|done]. by destruct (db w !! id). }
  destruct (negb (db_ready w)); [exists (fun r => r); by split; [apply keeps_id|]|].
  destruct (q_fault (q1 env)); [exists (fun r => r); by split; [apply keeps_id|]|].
  destruct (q_fault (q2 env)) as [e|]; [destruct (q_fault (q3 env)) as [e'|]|].
  - exists (updated (q1 env) (set_status processing)).
    split; [apply keeps_processing|]. intros id. cbn. rewrite lookup_alter.
    case_decide; by subst.
  - eexists. split; [exact (keeps_compose _ _ (keeps_processing (q1 env))
                              (keeps_failed (q3 env) e))|].
    intros id. cbn. rewrite !lookup_alter.
    repeat case_decide; subst; try done. by destruct (db w !! _).
  - eexists. split; [exact (keeps_compose _ _ (keeps_processing (q1 env))
                              (keeps_completed (q2 env)))|].
    intros id. cbn. rewrite !lookup_alter.
    repeat case_decide; subst; try done. by destruct (db w !! _).
Qed.

Lemma new_row_ok jt data now : jt ∈ validJobTypes -> row_ok (new_row jt data now).
Proof. intros Hjt. by repeat split. Qed.

Lemma step_rows op w id row :
  db w !! id = Some row ->
  exists f, keeps f /\ db (snd (step op w)) !! id = Some (f row).
Proof.
  intros Hrow. destruct op as [env rj|q ps|env job]; cbn.
  - apply (POST_keeps_rows env rj) in Hrow.
    destruct (POST env rj w). exists (fun r => r). by split; [apply keeps_id|].
  - destruct (GET_state q ps w) as (r & w' & -> & Hdb & _). cbn.
    rewrite Hdb. exists (fun r => r). by split; [apply keeps_id|].
  - destruct (processEmailJob_rows env job w) as (f & Hf & Hdb).
    destruct (processEmailJob env job w) as [r w']. cbn in *.
    rewrite Hdb, Hrow. case_decide.
    + by exists f.
    + exists (fun r => r). by split; [apply keeps_id|].
Qed.

Lemma run_rows ops w id row :
  db w !! id = Some row ->
  exists f, keeps f /\ db (snd (run ops w)) !! id = Some (f row).
Proof.
  revert w row. induction ops as [|op ops IH]; intros w row Hrow.
  { exists (fun r => r). by split; [apply keeps_id|]. }
  destruct (step_rows op w id row Hrow) as (f & Hf & Hrow1).
  cbn. destruct (step op w) as [o w1]. cbn in Hrow1.
  destruct (IH w1 (f row) Hrow1) as (g & Hg & Hrow2).
  destruct (run ops w1) as [os w2]. cbn in *.
  exists (fun r => g (f r)). split; [by apply keeps_compose|done].
Qed.

(** X23: what is written once stays: over any run of requests and
    deliveries, a job keeps its row, and the type, the data and the time
    of creation of the row never change. *)
Theorem run_keeps_type_data_created ops w id row :
  db w !! id = Some row ->
  exists row',
    db (snd (run ops w)) !! id = Some row' /\
    job_type row' = job_type row /\ job_data row' = job_data row /\
    created_at row' = created_at row.
Proof.
  intros Hrow. destruct (run_rows ops w id row Hrow) as (f & Hf & Hrow').
  exists (f row). destruct (Hf row) as (? & ? & ? & _). by repeat split.
Qed.

Lemma run_keeps_type_data_created_witness :
  exists row',
    db (snd (run [OpProcess (proc_fail 120) job1;
                  OpPost (post_env id1 130) (Ok (body_of "report"));
                  OpProcess (proc_ok 140) job1] (world1 "email"))) !! id1
      = Some row' /\
    job_type row' = "email" /\
    job_data row' = JObj [("to", JStr "a@b.com")] /\
    created_at row' = 100.
Proof.
  apply (run_keeps_type_data_created
           [OpProcess (proc_fail 120) job1;
            OpPost (post_env id1 130) (Ok (body_of "report"));
            OpProcess (proc_ok 140) job1] (world1 "email") id1
           (new_row "email" (JObj [("to", JStr "a@b.com")]) 100)).
  reflexivity.
Defined.

Lemma step_rows_ok op w : rows_ok w -> rows_ok (snd (step op w)).
Proof.
  intros Hok id r Hr.
  destruct (db w !! id) as [r0|] eqn:Hr0.
  - destruct (step_rows op w id r0 Hr0) as (f & Hf & Hr').
    rewrite Hr in Hr'. injection Hr' as ->. by apply Hf, (Hok id).
  - destruct op as [env rj|q ps|env job]; cbn in Hr.
    + destruct (POST_cases env rj w) as (r' & w' & HP & Hc).
      rewrite HP in Hr. cbn in Hr.
      destruct Hc as [r' Hr'|e|jt d e Hs Hnew|jt d Hs Hnew]; cbn in Hr;
        try congruence.
      all: pose proof Hs as (body & _ & _ & _ & Hin)%submission_Some.
      all: apply lookup_insert_Some in Hr as [[_ <-]|[_ Hr]];
        [by apply new_row_ok|congruence].
    + destruct (GET_state q ps w) as (r' & w' & HG & Hdb & _).
      rewrite HG in Hr. cbn in Hr. congruence.
    + assert (is_Some (db w !! id)) as [? ?]; [|congruence].
      apply (processEmailJob_dom env job w id).
      destruct (processEmailJob env job w). cbn in *. eauto.
Qed.

(** X24: every row the handlers leave is well formed, over any run from a
    table of well-formed rows: its type is a registered one, it has no
    result, a [completed] row has its [completed_at], a [failed] row has
    its error message, and a [pending] row was never touched since it was
    written. *)
Theorem run_keeps_rows_ok ops w :
  rows_ok w -> rows_ok (snd (run ops w)).
Proof.
  revert w. induction ops as [|op ops IH]; intros w Hok; [done|].
  cbn. apply (step_rows_ok op) in Hok.
  destruct (step op w) as [o w1]. specialize (IH w1 Hok).
  by destruct (run ops w1).
Qed.

Lemma run_keeps_rows_ok_witness :
  rows_ok (snd (run [OpPost (post_env id1 100) (Ok (body_of "email"));
                     OpProcess (proc_fail 110) job1;
                     OpProcess (proc_ok 120) job1] world0)).
Proof.
  apply run_keeps_rows_ok. intros id r H. vm_compute in H. discriminate.
Defined.

Lemma processEmailJob_keeps_redis env job w :
  redis (snd (processEmailJob env job w)) = redis w.
Proof.
  rewrite processEmailJob_eq. cbv zeta.
  destruct (negb (db_ready w)); [done|].
  destruct (q_fault (q1 env)); [done|].
  by destruct (q_fault (q2 env)); [destruct (q_fault (q3 env))|].
Qed.

Lemma queues_match_rows w w' :
  redis w' = redis w ->
  (forall id r, db w !! id = Some r ->
     exists f, keeps f /\ db w' !! id = Some (f r)) ->
  queues_match w -> queues_match w'.
Proof.
  intros Hredis Hrows Hm q jobs job Hq Hjob. rewrite Hredis in Hq.
  destruct (Hm q jobs job Hq Hjob) as (r & Hr & Ht & Hd & Hs).
  destruct (Hrows _ r Hr) as (f & Hf & Hr').
  destruct (Hf r) as (Hft & Hfd & _).
  exists (f r). split; [done|]. split; [congruence|]. split; [congruence|done].
Qed.

Lemma step_queues_match op w : queues_match w -> queues_match (snd (step op w)).
Proof.
  intros Hm.
  assert (forall w', redis w' = redis w -> w' = snd (step op w) ->
            queues_match w') as Hsame.
  { intros w' Hredis ->. apply (queues_match_rows w); [done| |done].
    intros id r Hr. by apply step_rows. }
  destruct op as [env rj|q ps|env job]; cbn.
  - pose proof (Hsame (snd (step (OpPost env rj) w))) as Hsame'. cbn in Hsame'.
    destruct (POST_cases env rj w) as (r & w' & HP & Hc).
    rewrite HP in Hsame' |- *. cbn [snd] in *.
    destruct Hc as [r Hr|e|jt d e Hs Hnew|jt d Hs Hnew]; try by apply Hsame'.
    intros q jobs job Hq Hjob. cbn in Hq.
    assert (job ∈ default [] (redis w !! q) \/
            job = email_job (S (List.length (default [] (redis w !! "email"))))
                    (date1 env) (date2 env) (post_input env jt d)) as [Hold | ->].
    { destruct (decide (q = "email")) as [->|Hne].
      - rewrite lookup_insert_eq in Hq. injection Hq as <-.
        apply elem_of_app in Hjob as [?|?%list_elem_of_singleton]; auto.
      - rewrite lookup_insert_ne in Hq by done. left. by rewrite Hq. }
    + destruct (redis w !! q) as [old|] eqn:Hq'; [|by apply elem_of_nil in Hold].
      destruct (Hm q old job Hq' Hold) as (r0 & Hr0 & Hmatch).
      exists r0. split; [|done]. cbn.
      rewrite lookup_insert_ne; [done|congruence].
    + eexists. split; [cbn; apply lookup_insert_eq|]. by repeat split.
  - destruct (GET_state q ps w) as (r & w' & HG & Hdb & Hredis & _).
    pose proof (Hsame (snd (step (OpGet q ps) w))) as Hsame'. cbn in Hsame'.
    rewrite HG in Hsame' |- *. by apply Hsame'.
  - pose proof (Hsame (snd (step (OpProcess env job) w))) as Hsame'.
    cbn in Hsame'.
    pose proof (processEmailJob_keeps_redis env job w) as Hredis.
    destruct (processEmailJob env job w) as [r w']. by apply Hsame'.
Qed.

(** X25: every message in a queue names a job that has a row, of the
    same type and with the same data: this holds after any run of requests
    and deliveries from a state where it holds, the empty one for
    instance. *)
Theorem run_keeps_queues_match ops w :
  queues_match w -> queues_match (snd (run ops w)).
Proof.
  revert w. induction ops as [|op ops IH]; intros w Hm; [done|].
  cbn. apply (step_queues_match op) in Hm.
  destruct (step op w) as [o w1]. specialize (IH w1 Hm).
  by destruct (run ops w1).
Qed.

Lemma run_keeps_queues_match_witness :
  queues_match (snd (run [OpPost (post_env id1 100) (Ok (body_of "email"));
                          OpProcess (proc_fail 110) job1;
                          OpPost (post_env id2 120) (Ok (body_of "report"));
                          OpProcess (proc_ok 130) job1] world0)).
Proof.
  apply run_keeps_queues_match. intros q jobs job H. vm_compute in H.
  discriminate.
Defined.

(** ** The migration runner *)

(** X26: whatever fails in it, [runMigrations] leaves the record of the
    applied versions in step with the schema: when the migration is
    recorded, the table [jobs] and its trigger exist. *)
Theorem runMigrations_keeps_schema_ok env s :
  schema_ok s -> schema_ok (fst (runMigrations env s)).
Proof.
  intros [Htr Hv]. unfold runMigrations.
  assert (schema_ok (with_versions (default ∅ (schema_migrations s)) s)) as Hok1
    by (by split).
  destruct (negb (is_set (mg_url env))); [by split|].
  destruct (mg_create env); [by split|].
  destruct (mg_select env); [done|].
  case_bool_decide as Hin; cbn [negb].
  { by destruct (mg_end env). }
  destruct (mg_read env); [done|].
  unfold create_jobs_table. destruct (mg_migrate env); [done|].
  cbn. destruct (jobs_trigger s) eqn:Ht; [done|].
  destruct (mg_record env); [by split|].
  destruct (mg_end env); by split.
Qed.

Lemma runMigrations_keeps_schema_ok_witness :
  schema_ok (fst (runMigrations
                    {| mg_url := Some "postgres://postgres:5432/jobs";
                       mg_create := None; mg_select := None; mg_read := None;
                       mg_migrate := None;
                       mg_record := Some "Connection terminated unexpectedly";
                       mg_end := None |} fresh_schema)).
Proof.
  apply runMigrations_keeps_schema_ok. split; [discriminate|].
  cbn. set_solver.
Defined.

(** X27: a run in which nothing fails applies the migration when its
    trigger does not exist yet: afterwards the table and the trigger
    exist and the version is recorded; and a later run in which nothing
    fails finds it applied and changes nothing. *)
Theorem runMigrations_applies_once env env' s :
  is_set (mg_url env) = true -> is_set (mg_url env') = true ->
  mg_create env = None -> mg_select env = None -> mg_read env = None ->
  mg_migrate env = None -> mg_record env = None -> mg_end env = None ->
  mg_create env' = None -> mg_select env' = None -> mg_end env' = None ->
  jobs_trigger s = false -> ~ applied s ->
  let s' := fst (runMigrations env s) in
  snd (runMigrations env s) = [MgRunning; MgCompleted] /\
  jobs_table s' = true /\ jobs_trigger s' = true /\ applied s' /\
  runMigrations env' s' = (s', [MgAlreadyApplied]).
Proof.
  intros Hu Hu' Hc Hs Hr Hm Hrec He Hc' Hs' He' Ht Hna. cbv zeta.
  unfold applied in Hna.
  assert (runMigrations env s =
            (with_versions ({[version_001]} ∪ default ∅ (schema_migrations s))
               {| schema_migrations := Some (default ∅ (schema_migrations s));
                  jobs_table := true; jobs_trigger := true |},
             [MgRunning; MgCompleted])) as ->.
  { unfold runMigrations, create_jobs_table.
    rewrite Hu, Hc, Hs, Hr, Hm, Hrec, He. cbn [negb].
    rewrite (bool_decide_eq_false_2 _ Hna). cbn. by rewrite Ht. }
  cbn [fst snd]. split; [done|]. split; [done|]. split; [done|].
  split; [unfold applied; cbn; set_solver|].
  unfold runMigrations. rewrite Hu', Hc', Hs', He'. cbn.
  rewrite bool_decide_eq_true_2 by set_solver. done.
Qed.

Lemma runMigrations_applies_once_witness :
  let s' := fst (runMigrations migration_ok fresh_schema) in
  snd (runMigrations migration_ok fresh_schema) = [MgRunning; MgCompleted] /\
  jobs_table s' = true /\ jobs_trigger s' = true /\ applied s' /\
  runMigrations migration_ok s' = (s', [MgAlreadyApplied]).
Proof.
  apply (runMigrations_applies_once migration_ok migration_ok fresh_schema);
    try reflexivity.
  unfold applied. cbn. set_solver.
Defined.

(** X28: a migration that ran but could not be recorded is not repaired
    by the runner: the table and the trigger exist, the version is
    missing, and every later run, even one in which nothing else fails,
    stops at the trigger that exists already, prints the error and leaves
    the schema as it is. *)
Theorem runMigrations_unrecorded_stays env s :
  is_set (mg_url env) = true ->
  mg_create env = None -> mg_select env = None -> mg_read env = None ->
  jobs_trigger s = true -> ~ applied s ->
  exists msg,
    snd (runMigrations env s) = [MgRunning; MgError msg] /\
    jobs_table (fst (runMigrations env s)) = jobs_table s /\
    jobs_trigger (fst (runMigrations env s)) = true /\
    ~ applied (fst (runMigrations env s)).
Proof.
  intros Hu Hc Hs Hr Ht Hna. unfold applied in *.
  unfold runMigrations, create_jobs_table.
  rewrite Hu, Hc, Hs, Hr. cbn [negb].
  rewrite (bool_decide_eq_false_2 _ Hna). cbn [negb].
  destruct (mg_migrate env); cbn; [by eexists|]. rewrite Ht. by eexists.
Qed.

Lemma runMigrations_unrecorded_stays_witness :
  let s := fst (runMigrations
                  {| mg_url := Some "postgres://postgres:5432/jobs";
                     mg_create := None; mg_select := None; mg_read := None;
                     mg_migrate := None;
                     mg_record := Some "Connection terminated unexpectedly";
                     mg_end := None |} fresh_schema) in
  exists msg,
    snd (runMigrations migration_ok s) = [MgRunning; MgError msg] /\
    jobs_table (fst (runMigrations migration_ok s)) = jobs_table s /\
    jobs_trigger (fst (runMigrations migration_ok s)) = true /\
    ~ applied (fst (runMigrations migration_ok s)).
Proof.
  apply (runMigrations_unrecorded_stays migration_ok); try reflexivity.
  unfold applied. cbn. set_solver.
Defined.
